(** * AgentEval: single-episode evaluation of a pretrained policy

    Shallow embedding of [src/ManiSkill/AgentEval.py].  The script drives
    three external collaborators (the simulated environment, the pretrained
    policy and the video encoder).  Each call into one of them is recorded as
    an event; the script itself is a program in a small writer/error monad
    whose log is the chronological list of those events.

    Numbers: integer image tensors carry [Z] entries, float32 tensors carry
    [Q] entries (exact arithmetic stands for float32 arithmetic).  A tensor
    of shape [B,H,W,C] is a list of depth four.  A Python [dict] is a
    [gmap]; iterating it enumerates [map_to_list].

    Paths are built as [pathlib] builds them on a POSIX system.  A video
    writer is an object of its own: it is told apart from the other writers
    by the camera it was created for, not by the path it writes to. *)

From Stdlib Require Import ZArith QArith Lia Ascii.
From stdpp Require Import base option list strings gmap fin_maps.

Open Scope string_scope.
Open Scope list_scope.
Open Scope nat_scope.

(** ** Tensors *)

Inductive torch_device := Cpu | Cuda.

(** A float tensor together with the device it lives on. *)
Record tensor (A : Type) := Tensor { t_device : torch_device; t_data : A }.
Arguments Tensor {A} _ _.
Arguments t_device {A} _.
Arguments t_data {A} _.

(** [x.to(device)] *)
Definition to_device {A} (d : torch_device) (x : tensor A) : tensor A :=
  Tensor d (t_data x).

Definition image (A : Type) := list (list (list A)).
Definition bhwc (A : Type) := list (image A).

Definition map4 {A B} (f : A → B) : bhwc A → bhwc B :=
  map (map (map (map f))).

(** [t.to(torch.float32)] on an integer tensor. *)
Definition to_float32 : bhwc Z → bhwc Q := map4 inject_Z.

(** Size of the last axis of an [H,W,C] block, read off its first pixel
    (the nested lists stand for tensors with [H] and [W] positive). *)
Definition channels {A} (im : image A) : nat :=
  match im with
  | (px :: _) :: _ => length px
  | _ => 0%nat
  end.

(** [t.permute(0, 3, 1, 2)]: [B,H,W,C] becomes [B,C,H,W]. *)
Definition permute_0312 {A} (d : A) (t : bhwc A) : bhwc A :=
  map (λ im, map (λ c, map (map (λ px, nth c px d)) im) (seq 0 (channels im))) t.

(** [t / k] *)
Definition div_scalar (k : Q) : bhwc Q → bhwc Q := map4 (λ x, x / k)%Q.

(** [t.unsqueeze(0)] *)
Definition unsqueeze0 {A} (x : A) : list A := [x].

(** [row[lo:hi] *= k], the in-place product on a slice. *)
Definition imul_slice (lo hi : nat) (k : Q) (row : list Q) : list Q :=
  take lo row ++ map (λ x, x * k)%Q (take (hi - lo) (drop lo row)) ++ drop hi row.

(** [a[:, lo:hi] *= k], the in-place product on a column slice. *)
Definition imul_cols (lo hi : nat) (k : Q) (a : list (list Q)) : list (list Q) :=
  map (imul_slice lo hi k) a.

(** [x.astype(np.uint8)] on an integer entry wraps modulo 256. *)
Definition astype_uint8 (x : Z) : Z := (x mod 256)%Z.

(** [rgba[0, ..., :3]]: batch element 0, last axis cut to its first three
    entries.  Indexing an empty batch axis raises [IndexError]. *)
Definition index0_first3 {A} (rgba : bhwc A) : option (image A) :=
  match rgba with
  | [] => None
  | im :: _ => Some (map (map (take 3)) im)
  end.

Definition frame_of (rgba : bhwc Z) : option (image Z) :=
  map (map (map astype_uint8)) <$> index0_first3 rgba.

(** ** Observations and policy input *)

Record camera_data := CameraData { rgb : bhwc Z }.

Record observation := Observation {
  tcp_pose : list (list Q);                 (* raw_observation["extra"]["tcp_pose"] *)
  sensor_data : gmap string camera_data     (* raw_observation["sensor_data"] *)
}.

Record step_result := StepResult {
  sr_obs : observation;
  sr_reward : Q;
  sr_terminated : bool;
  sr_truncated : bool
}.

Inductive batch_value :=
| BState (t : tensor (list (list Q)))
| BImage (t : tensor (bhwc Q))
| BText (s : string).

(** [lerobot.common.constants.OBS_STATE] *)
Definition OBS_STATE : string := "observation.state".

(** [device = "cuda"], line 46. *)
Definition device : torch_device := Cuda.

Definition make_batch (state : tensor (list (list Q)))
    (top_image side_image wrist_image : tensor (bhwc Q)) : gmap string batch_value :=
  <["task" := BText "Pick up the red cube."]>
  (<["observation.image3" := BImage side_image]>
  (<["observation.image" := BImage wrist_image]>
  (<["observation.image2" := BImage top_image]>
  (<[OBS_STATE := BState state]> ∅)))).

(** Lines 119-136: float32, channel first, divided by 255, moved to the device. *)
Definition prepare_image (im : bhwc Z) : tensor (bhwc Q) :=
  to_device device (Tensor Cpu (div_scalar 255.0 (permute_0312 0%Q (to_float32 im)))).

(** Lines 109, 118, 133. *)
Definition prepare_state (state6 : list Q) : tensor (list (list Q)) :=
  to_device device (Tensor Cpu (unsqueeze0 state6)).

(** Lines 156-157. *)
Definition scale_action (action : list (list Q)) : list (list Q) :=
  imul_cols 3 6 0.2 (imul_cols 0 3 0.05 action).

(** ** Output paths: [pathlib.Path] on a POSIX system *)

(** A parsed path: its root (empty, ["/"] or ["//"]) and its components. *)
Record Path := MkPath { root : string; parts : list string }.

(** The number of slashes a string starts with. *)
Fixpoint leading_slashes (s : string) : nat :=
  match s with
  | String c s' => if Ascii.eqb c "/"%char then S (leading_slashes s') else 0
  | EmptyString => 0
  end.

(** [s.split("/")], where [cur] is the component being read. *)
Fixpoint split_slash (cur s : string) : list string :=
  match s with
  | EmptyString => [cur]
  | String c s' =>
      if Ascii.eqb c "/"%char then cur :: split_slash EmptyString s'
      else split_slash (cur +:+ String c EmptyString) s'
  end.

(** [Path(s)].  Exactly two leading slashes give the root ["//"], any other
    positive number of them gives ["/"]; empty components and ["."] are
    dropped, [".."] is kept. *)
Definition parse_path (s : string) : Path :=
  {| root := match leading_slashes s with
             | 0 => EmptyString
             | 2 => "//"
             | _ => "/"
             end;
     parts := filter (λ c, c ≠ EmptyString ∧ c ≠ ".") (split_slash EmptyString s) |}.

(** [p / key]: a key with a root replaces [p]. *)
Definition truediv (p : Path) (key : string) : Path :=
  let q := parse_path key in
  if decide (root q = EmptyString) then {| root := root p; parts := parts p ++ parts q |}
  else q.

(** [str(p)] *)
Definition path_str (p : Path) : string :=
  let s := root p +:+ String.concat "/" (parts p) in
  if decide (s = EmptyString) then "." else s.

(** [output_dir = Path("./videos")], line 88. *)
Definition output_dir : Path := parse_path "./videos".

(** [str(output_dir / f"{uid}.mp4")], lines 96-97 and 191. *)
Definition video_path (uid : string) : string :=
  path_str (truediv output_dir (uid +:+ ".mp4")).

(** Camera identifiers without a slash: the file name made of one is a
    single path component. *)
Fixpoint has_slash (s : string) : bool :=
  match s with
  | EmptyString => false
  | String c s' => Ascii.eqb c "/"%char || has_slash s'
  end.

Definition path_safe (uid : string) : Prop := has_slash uid = false.

#[global] Instance path_safe_dec uid : Decision (path_safe uid).
Proof. unfold path_safe. apply _. Defined.

(** ** Uncaught errors, outcomes and the event log *)

Inductive exn :=
| KeyError (key : string)
| IndexError
| NameError (name : string).

Inductive outcome (A : Type) :=
| Done (a : A)
| Raised (e : exn)
| OutOfFuel.
Arguments Done {A} _.
Arguments Raised {A} _.
Arguments OutOfFuel {A}.

(** A computation returns the events it emitted and how it ended. *)
Definition M (Ev A : Type) : Type := list Ev * outcome A.

Definition M_ret {Ev A} (a : A) : M Ev A := ([], Done a).

Definition M_bind {Ev A B} (f : A → M Ev B) (m : M Ev A) : M Ev B :=
  match m with
  | (e1, Done a) => let '(e2, r) := f a in (e1 ++ e2, r)
  | (e1, Raised e) => (e1, Raised e)
  | (e1, OutOfFuel) => (e1, OutOfFuel)
  end.

#[global] Instance M_mret Ev : MRet (M Ev) := λ A, M_ret.
#[global] Instance M_mbind Ev : MBind (M Ev) := λ A B, M_bind.

Definition emit {Ev} (e : Ev) : M Ev unit := ([e], Done tt).
Definition raise {Ev A} (e : exn) : M Ev A := ([], Raised e).

(** [d[k]] on a dict. *)
Definition getitem {Ev A} (d : gmap string A) (k : string) : M Ev A :=
  match d !! k with
  | Some v => mret v
  | None => raise (KeyError k)
  end.

Section Script.

(** The 7-dimensional action format handed to [env.step]. *)
Context {action7 : Type}.

(** [utils.convert_7_to_6] and [utils.convert_6_to_7]. *)
Variable convert_7_to_6 : list (list Q) → list Q.
Variable convert_6_to_7 : list (list Q) → action7.

(** The policy: [select_action] is stateful. *)
Context {policy_state : Type}.
Variable select_action :
  policy_state → gmap string batch_value → list (list Q) * policy_state.

(** The environment. *)
Context {env_state : Type}.
Variable env_step : env_state → action7 → step_result * env_state.
Variable env_metadata : gmap string nat.

Inductive message :=
| MsgOpened (uid path : string)
| MsgPose (step : nat) (raw_pose : list (list Q))
| MsgAction (step : nat) (action : action7)
| MsgReward (step : nat) (reward : Q) (terminated : bool)
| MsgSuccess
| MsgFailure
| MsgSaved (uid path : string).

Inductive event :=
| Print (m : message)
| GetWriter (w : string) (path : string) (fps : nat)
| AppendData (w : string) (frame : image Z)
| CloseWriter (w : string)
| SelectAction (batch : gmap string batch_value) (out : list (list Q))
| EnvStep (action : action7) (r : step_result).

Abbreviation prog := (M event).

Definition print (m : message) : prog unit := emit (Print m).

(** The script's variables, together with the state of the two stateful
    collaborators. *)
Record locals := Locals {
  raw_observation : observation;
  rewards : list Q;
  frames : list (image Z);
  step : nat;
  done : bool;
  terminated : option bool;
  truncated : option bool;
  env : env_state;
  policy : policy_state
}.

(** Line 92. *)
Definition fps : nat := default 30%nat (env_metadata !! "render_fps").

(** Lines 95-98.  [GetWriter w path fps] is the call
    [imageio.get_writer(path, fps=fps)] together with the writer object [w]
    it returns.  The loop creates one object per key of the dict, and an
    object is named after the camera it is created for: the name tells the
    objects apart also when two of them are opened on one path. *)
Fixpoint open_writers (camera_uids : list string) (writers : gmap string string)
    : prog (gmap string string) :=
  match camera_uids with
  | [] => mret writers
  | uid :: rest =>
      let video_path := truediv output_dir (uid +:+ ".mp4") in
      emit (GetWriter uid (path_str video_path) fps);;
      print (MsgOpened uid (path_str video_path));;
      open_writers rest (<[uid := uid]> writers)
  end.

(** Lines 173-176, one camera. *)
Definition append_frame (writers : gmap string string)
    (item : string * camera_data) : prog unit :=
  let '(uid, data) := item in
  let rgba := rgb data in
  rgb ← from_option mret (raise IndexError) (frame_of rgba);
  w ← getitem writers uid;
  emit (AppendData w rgb).

Fixpoint append_frames (writers : gmap string string)
    (items : list (string * camera_data)) : prog unit :=
  match items with
  | [] => mret tt
  | item :: rest => append_frame writers item;; append_frames writers rest
  end.

(** Lines 104-181, the body of the [while] loop. *)
Definition iteration (writers : gmap string string) (s : locals) : prog locals :=
  let raw_pose := tcp_pose (raw_observation s) in
  let state6 := convert_7_to_6 raw_pose in
  let state := prepare_state state6 in
  print (MsgPose (step s) raw_pose);;
  top_image ← getitem (sensor_data (raw_observation s)) "top_camera";
  side_image ← getitem (sensor_data (raw_observation s)) "side_camera";
  wrist_image ← getitem (sensor_data (raw_observation s)) "wrist_camera";
  let batch := make_batch state (prepare_image (rgb top_image))
                 (prepare_image (rgb side_image)) (prepare_image (rgb wrist_image)) in
  let '(out, policy') := select_action (policy s) batch in
  emit (SelectAction batch out);;
  let action := convert_6_to_7 (scale_action out) in
  print (MsgAction (step s) action);;
  let '(r, env') := env_step (env s) action in
  emit (EnvStep action r);;
  print (MsgReward (step s) (sr_reward r) (sr_terminated r));;
  append_frames writers (map_to_list (sensor_data (sr_obs r)));;
  mret {| raw_observation := sr_obs r;
          rewards := rewards s ++ [sr_reward r];
          frames := frames s;
          step := S (step s);
          done := sr_terminated r || sr_truncated r || done s;
          terminated := Some (sr_terminated r);
          truncated := Some (sr_truncated r);
          env := env';
          policy := policy' |}.

(** Line 103, [while not done]. *)
Fixpoint while_not_done (fuel : nat) (writers : gmap string string) (s : locals)
    : prog locals :=
  if done s then mret s
  else match fuel with
       | O => ([], OutOfFuel)
       | S fuel' => s' ← iteration writers s; while_not_done fuel' writers s'
       end.

(** Lines 189-191. *)
Fixpoint close_writers (items : list (string * string)) : prog unit :=
  match items with
  | [] => mret tt
  | (uid, writer) :: rest =>
      emit (CloseWriter writer);;
      print (MsgSaved uid (path_str (truediv output_dir (uid +:+ ".mp4"))));;
      close_writers rest
  end.

(** Lines 183-191. *)
Definition teardown (writers : gmap string string) (s : locals) : prog unit :=
  t ← from_option mret (raise (NameError "terminated")) (terminated s);
  print (if t : bool then MsgSuccess else MsgFailure);;
  close_writers (map_to_list writers).

(** Lines 78-102: the state in which the loop is entered. *)
Definition init (raw_observation : observation)
    (e : env_state) (p : policy_state) : locals :=
  {| raw_observation := raw_observation; rewards := []; frames := [];
     step := 0; done := false; terminated := None; truncated := None;
     env := e; policy := p |}.

(** The whole script from [env.reset] on. *)
Definition script (fuel : nat) (obs0 : observation)
    (e0 : env_state) (p0 : policy_state) : prog locals :=
  let camera_uids := (map_to_list (sensor_data obs0)).*1 in
  writers ← open_writers camera_uids ∅;
  s ← while_not_done fuel writers (init obs0 e0 p0);
  teardown writers s;;
  mret s.

End Script.

(** ** Reading the event log *)

Section Log.

Context {action7 : Type}.
Implicit Types (tr : list (@event action7)).

(** What [env.step] returned, call by call. *)
Definition env_results tr : list step_result :=
  omap (λ ev, match ev with EnvStep _ r => Some r | _ => None end) tr.

(** The actions handed to [env.step], call by call. *)
Definition env_actions tr : list action7 :=
  omap (λ ev, match ev with EnvStep a _ => Some a | _ => None end) tr.

(** What [policy.select_action] received and returned, call by call. *)
Definition policy_inputs tr : list (gmap string batch_value) :=
  omap (λ ev, match ev with SelectAction b _ => Some b | _ => None end) tr.

Definition policy_outputs tr : list (list (list Q)) :=
  omap (λ ev, match ev with SelectAction _ out => Some out | _ => None end) tr.

(** Writers opened and the paths they were opened on, writers closed,
    frames appended. *)
Definition opened tr : list string :=
  omap (λ ev, match ev with GetWriter w _ _ => Some w | _ => None end) tr.

Definition opened_paths tr : list string :=
  omap (λ ev, match ev with GetWriter _ path _ => Some path | _ => None end) tr.

Definition closed tr : list string :=
  omap (λ ev, match ev with CloseWriter w => Some w | _ => None end) tr.

Definition appended tr : list (string * image Z) :=
  omap (λ ev, match ev with AppendData w f => Some (w, f) | _ => None end) tr.

(** The frames one writer received, in order. *)
Definition frames_of (w : string) tr : list (image Z) :=
  (filter (λ p, p.1 = w) (appended tr)).*2.

(** The final verdicts printed. *)
Definition verdicts tr : list bool :=
  omap (λ ev, match ev with
              | Print MsgSuccess => Some true
              | Print MsgFailure => Some false
              | _ => None
              end) tr.

(** The lines printed after each [env.step] (line 168) and before it
    (line 164): step counter with reward and terminated flag, step counter
    with action. *)
Definition reward_lines tr : list (nat * Q * bool) :=
  omap (λ ev, match ev with
              | Print (MsgReward n reward t) => Some (n, reward, t)
              | _ => None
              end) tr.

Definition action_lines tr : list (nat * action7) :=
  omap (λ ev, match ev with
              | Print (MsgAction n a) => Some (n, a)
              | _ => None
              end) tr.

(** For each frame that a writer received, the number of [env.step] calls
    made before it, counted from [n]. *)
Fixpoint frame_steps (w : string) (n : nat) tr : list nat :=
  match tr with
  | [] => []
  | EnvStep _ _ :: tr' => frame_steps w (S n) tr'
  | AppendData w' _ :: tr' =>
      if decide (w' = w) then n :: frame_steps w n tr' else frame_steps w n tr'
  | _ :: tr' => frame_steps w n tr'
  end.

(** The frame rates the writers were opened with. *)
Definition opened_fps tr : list nat :=
  omap (λ ev, match ev with GetWriter _ _ f => Some f | _ => None end) tr.

End Log.

(** Post-step observations that show a given camera. *)
Definition shows (uid : string) (r : step_result) : Prop :=
  uid ∈ dom (sensor_data (sr_obs r)).

#[global] Instance shows_dec uid r : Decision (shows uid r).
Proof. unfold shows. apply _. Defined.

(** What lines 174-176 hand to a writer for one camera when nothing fails:
    the writer and the frame. *)
Definition frame_item (writers : gmap string string)
    (item : string * camera_data) : option (string * image Z) :=
  match frame_of (rgb item.2), writers !! item.1 with
  | Some f, Some w => Some (w, f)
  | _, _ => None
  end.

(** The error lines 174-176 end in for one camera, if any. *)
Definition frame_error (writers : gmap string string)
    (item : string * camera_data) : option exn :=
  match frame_of (rgb item.2), writers !! item.1 with
  | None, _ => Some IndexError
  | Some _, None => Some (KeyError item.1)
  | Some _, Some _ => None
  end.

(** Writers as the opening loop leaves them: each is stored under the
    camera it was created for. *)
Definition keyed_by_camera (writers : gmap string string) : Prop :=
  ∀ uid w, writers !! uid = Some w → w = uid.

(** The policy input built from an observation (lines 105-151). *)
Definition batch_of (convert_7_to_6 : list (list Q) → list Q)
    (obs : observation) (b : gmap string batch_value) : Prop :=
  ∃ top side wrist,
    sensor_data obs !! "top_camera" = Some top ∧
    sensor_data obs !! "side_camera" = Some side ∧
    sensor_data obs !! "wrist_camera" = Some wrist ∧
    b = make_batch (prepare_state (convert_7_to_6 (tcp_pose obs)))
          (prepare_image (rgb top)) (prepare_image (rgb side))
          (prepare_image (rgb wrist)).

(** What surrounds a call in the log, if the action handed to [env.step] is
    computed as in lines 154-167: an [env.step] call comes right after the
    policy query whose output, scaled and converted, is its action, and
    after the line that prints that action; a policy query is followed by
    that line and that call. *)
Definition around_call {action7 policy_state : Type}
    (convert_6_to_7 : list (list Q) → action7)
    (select_action :
       policy_state → gmap string batch_value → list (list Q) * policy_state)
    (hd : list (@event action7)) (x : @event action7) (tl : list (@event action7))
    : Prop :=
  match x with
  | EnvStep a r =>
      ∃ hd' b out n p,
        hd = hd' ++ [SelectAction b out; Print (MsgAction n a)] ∧
        out = (select_action p b).1 ∧
        a = convert_6_to_7 (scale_action out)
  | SelectAction b out =>
      ∃ n r tl',
        tl = Print (MsgAction n (convert_6_to_7 (scale_action out)))
             :: EnvStep (convert_6_to_7 (scale_action out)) r :: tl'
  | _ => True
  end.

(** ** Algebra on batches of actions *)

(** Equality of float tensors of depth two, entry by entry. *)
Definition tensor_eq (a b : list (list Q)) : Prop := Forall2 (Forall2 Qeq) a b.

Definition tensor_add (a b : list (list Q)) : list (list Q) :=
  zip_with (zip_with Qplus) a b.

Definition tensor_scale (c : Q) (a : list (list Q)) : list (list Q) :=
  map (map (Qmult c)) a.

Definition zeros (n m : nat) : list (list Q) := replicate n (replicate m 0%Q).

(** Lines 156-157 on one row. *)
Definition scale_row (row : list Q) : list Q :=
  imul_slice 3 6 0.2 (imul_slice 0 3 0.05 row).

(** The factor that lines 156-157 apply at column [i]. *)
Definition scale_at (i : nat) (x : Q) : Q :=
  if i <? 3 then (x * 0.05)%Q else if i <? 6 then (x * 0.2)%Q else x.

(** The first of the cameras read by lines 112-114 that an observation does
    not have. *)
Definition first_missing (sd : gmap string camera_data) : option string :=
  match sd !! "top_camera", sd !! "side_camera", sd !! "wrist_camera" with
  | None, _, _ => Some "top_camera"
  | Some _, None, _ => Some "side_camera"
  | Some _, Some _, None => Some "wrist_camera"
  | Some _, Some _, Some _ => None
  end.


(** ** Value ranges *)

Definition in_unit (x : Q) : Prop := (0 <= x <= 1)%Q.
Definition pixel_range (z : Z) : Prop := (0 ≤ z ≤ 255)%Z.
Definition Forall4 {A} (P : A → Prop) (t : bhwc A) : Prop :=
  Forall (Forall (Forall (Forall P))) t.

(** The entry at [b, i, j, k] of a tensor of depth four. *)
Definition at4 {A} (d : A) (t : bhwc A) (b i j k : nat) : A :=
  nth k (nth j (nth i (nth b t []) []) []) d.

(** ** The parts of the repository that are not in the evaluation script *)

(** Modelled from the spec: the environment built by
    [gym.make(..., max_episode_steps=...)] is missing.  The spec speaks of
    "a maximum step cap enforced by the environment itself" that ends the
    loop through the truncation flag: the environment counts the steps taken
    since the reset and reports truncation once the count reaches the cap. *)
Definition time_limit_step {action7 inner_state : Type} (max_episode_steps : nat)
    (inner_step : inner_state → action7 → step_result * inner_state)
    (e : inner_state * nat) (a : action7) : step_result * (inner_state * nat) :=
  let '(r, inner') := inner_step e.1 a in
  let elapsed := S e.2 in
  ({| sr_obs := sr_obs r; sr_reward := sr_reward r;
      sr_terminated := sr_terminated r;
      sr_truncated := sr_truncated r || (max_episode_steps <=? elapsed)%nat |},
   (inner', elapsed)).

(** Under the step cap, the environment's step count agrees with the
    script's, and the loop goes on only below the cap. *)
Definition below_cap {policy_state inner_state : Type} (cap : nat)
    (s : @locals policy_state (inner_state * nat)) : Prop :=
  (env s).2 = step s ∧ (done s = false → step s < cap).

(** [max_episode_steps=500], line 63. *)
Definition max_episode_steps : nat := 500.

(** Modelled from the spec: [utils.convert_7_to_6] is missing.  A
    7-element pose (three translation components, then a quaternion) becomes
    "3 translation + 3 rotation components"; the translation is carried over
    and the change of rotation representation is left as the parameter
    [rot_of_quat]. *)
Definition convert_7_to_6_model (rot_of_quat : list Q → list Q)
    (raw_pose : list (list Q)) : list Q :=
  match raw_pose with
  | [] => []
  | pose :: _ => take 3 pose ++ rot_of_quat (drop 3 pose)
  end.

(** Modelled from the spec: [utils.convert_6_to_7] is missing.  The
    "format conversion back to 7 dimensions" keeps the three translation
    components and turns the three rotation components into a quaternion,
    left as the parameter [quat_of_rot]. *)
Definition convert_6_to_7_model (quat_of_rot : list Q → list Q)
    (action : list (list Q)) : list (list Q) :=
  map (λ row, take 3 row ++ quat_of_rot (drop 3 row)) action.

(** ** A small concrete episode, for evaluating the script *)

Module Demo.

(** An RGBA pixel of a signed integer image, with two entries outside
    0..255. *)
Definition pixel : list Z := [-1; 20; 300; 255]%Z.
Definition picture : bhwc Z := [[[pixel; pixel]; [pixel; pixel]]].

Definition obs (uids : list string) (pose : list Q) : observation :=
  {| tcp_pose := [pose];
     sensor_data := list_to_map ((λ uid, (uid, CameraData picture)) <$> uids) |}.

Definition three : list string := ["top_camera"; "side_camera"; "wrist_camera"].
Definition pose0 : list Q := [-1; 0; 0.5; 1; 0; 0; 0]%Q.

Definition rot (q : list Q) : list Q := [0; 0; 0]%Q.
Definition quat (r : list Q) : list Q := [1; 0; 0; 0]%Q.

(** A policy that always answers the same 6-dimensional action. *)
Definition select (p : unit) (b : gmap string batch_value) : list (list Q) * unit :=
  ([[1; 1; 1; 1; 1; 1]%Q], p).

(** An environment that shows the cameras [uids] after every step and
    reports success at step [goal]. *)
Definition env_step (uids : list string) (goal : nat) (n : nat)
    (a : list (list Q)) : step_result * nat :=
  ({| sr_obs := obs uids pose0; sr_reward := 0;
      sr_terminated := (goal <=? S n)%nat; sr_truncated := false |}, S n).

(** An environment that never reports success. *)
Definition idle_step (n : nat) (a : list (list Q)) : step_result * nat :=
  ({| sr_obs := obs three pose0; sr_reward := 0;
      sr_terminated := false; sr_truncated := false |}, S n).

Definition run (uids0 uids : list string) (goal fuel : nat) :=
  script (convert_7_to_6_model rot) (convert_6_to_7_model quat) select
    (env_step uids goal) ∅ fuel (obs uids0 pose0) 0%nat tt.

(** The episode used below: three cameras throughout, success at step 2. *)
Definition episode := run three three 2 5.

(** The policy input of its first pass. *)
Definition batch0 : gmap string batch_value :=
  make_batch (prepare_state (convert_7_to_6_model rot [pose0]))
    (prepare_image picture) (prepare_image picture) (prepare_image picture).

(** The frame written for [picture]. *)
Definition frame0 : image Z :=
  [[[255; 20; 44]; [255; 20; 44]]; [[255; 20; 44]; [255; 20; 44]]]%Z.


(** A fourth camera that only a later observation shows. *)
Definition new_camera := run three ("depth_camera" :: three) 1 5.

(** An environment under the step cap that never reports success. *)
Definition capped :=
  script (convert_7_to_6_model rot) (convert_6_to_7_model quat) select
    (time_limit_step max_episode_steps idle_step) ∅
    (max_episode_steps + 0) (obs three pose0) (0, 0) tt.

Definition final {A B : Type} (s0 : @locals A B) (out : outcome (@locals A B))
    : @locals A B :=
  match out with Done s => s | _ => s0 end.

Definition start {A} (e : A) : @locals unit A := init (obs three pose0) e tt.


(** The two results that [env.step] returns in [episode]. *)
Definition result (t : bool) : step_result :=
  {| sr_obs := obs three pose0; sr_reward := 0;
     sr_terminated := t; sr_truncated := false |}.

(** The action that [select] leads to. *)
Definition action0 : list (list Q) :=
  convert_6_to_7_model quat (scale_action [[1; 1; 1; 1; 1; 1]%Q]).





End Demo.

(** ** Basic facts about the monad and the log readers *)

Lemma M_bind_unfold {Ev A B} (m : M Ev A) (f : A → M Ev B) :
  m ≫= f = match m with
           | (e1, Done a) => (e1 ++ (f a).1, (f a).2)
           | (e1, Raised e) => (e1, Raised e)
           | (e1, OutOfFuel) => (e1, OutOfFuel)
           end.
Proof.
  destruct m as [e1 [a| |]]; try reflexivity.
  unfold mbind, M_mbind, M_bind. by destruct (f a).
Qed.

(** ** Paths of the video files *)










(** Different cameras without a slash in their identifier have different
    files. *)
Lemma M_bind_log {Ev A B} (m : M Ev A) (f : A → M Ev B) :
  (m ≫= f).1 = m.1 ++ match m.2 with Done a => (f a).1 | _ => [] end.
Proof.
  rewrite M_bind_unfold. destruct m as [e1 [a| |]]; simpl; by rewrite ?app_nil_r.
Qed.


(** With a slash in an identifier, two cameras can share one file. *)
Lemma video_path_shared :
  video_path "./top_camera" = video_path "top_camera" ∧
  video_path "a//b" = video_path "a/b" ∧
  video_path "top_camera" = "videos/top_camera.mp4".
Proof. repeat split; vm_compute; reflexivity. Qed.

(** ** The policy input *)

(** Weakens the predicate under a [Forall], keeping the list. *)
Ltac forall_mono :=
  let H := fresh in intros H; eapply Forall_impl; [exact H|clear H; cbv beta].

Lemma Forall4_map4 {A B} (P : B → Prop) (f : A → B) (t : bhwc A) :
  Forall4 (λ x, P (f x)) t → Forall4 P (map4 f t).
Proof.
  unfold Forall4, map4. rewrite Forall_map. forall_mono. intros im.
  rewrite Forall_map. forall_mono. intros row.
  rewrite Forall_map. forall_mono. intros px.
  by rewrite Forall_map.
Qed.

Lemma Forall4_permute {A} (P : A → Prop) (d : A) (t : bhwc A) :
  Forall (Forall (Forall (λ px, ∀ c, P (nth c px d)))) t →
  Forall4 P (permute_0312 d t).
Proof.
  unfold Forall4, permute_0312. rewrite Forall_map. forall_mono. intros im Him.
  rewrite Forall_map. apply Forall_forall. intros c _.
  rewrite Forall_map. revert Him. forall_mono. intros row.
  rewrite Forall_map. forall_mono. intros px Hpx. apply Hpx.
Qed.

Lemma pixel_in_unit (z : Z) : pixel_range z → in_unit (inject_Z z / 255.0).
Proof.
  unfold pixel_range, in_unit, Qle, Qdiv, Qmult, Qinv, inject_Z. simpl. lia.
Qed.

(** Images with entries in [0,255] are prepared into entries in [0,1]. *)
Lemma prepare_image_in_unit (im : bhwc Z) :
  Forall4 pixel_range im → Forall4 in_unit (t_data (prepare_image im)).
Proof.
  intros Him. unfold prepare_image, to_device, div_scalar. simpl.
  apply Forall4_map4, Forall4_permute. unfold to_float32, map4.
  rewrite Forall_map. revert Him. forall_mono. intros imb.
  rewrite Forall_map. forall_mono. intros row.
  rewrite Forall_map. forall_mono. intros px Hpx c.
  change 0%Q with (inject_Z 0). rewrite map_nth. apply pixel_in_unit.
  destruct (nth_in_or_default c px 0%Z) as [Hin| ->].
  - rewrite Forall_forall in Hpx. apply Hpx. by apply list_elem_of_In.
  - unfold pixel_range. lia.
Qed.

Lemma channels_map {A B} (f : A → B) (im : image A) :
  channels (map (map (map f)) im) = channels im.
Proof. destruct im as [|[|px row] im]; simpl; try done. apply length_map. Qed.

Lemma nth_map_nil {A B} (f : list A → list B) (l : list (list A)) (n : nat) :
  f [] = [] → nth n (map f l) [] = f (nth n l []).
Proof. intros H. rewrite <- H at 1. apply map_nth. Qed.

Lemma nth_map_lt {A B} (f : A → B) (l : list A) (n : nat) (d : A) (d' : B) :
  (n < length l)%nat → nth n (map f l) d' = f (nth n l d).
Proof.
  intros H. rewrite (nth_indep _ d' (f d)) by (by rewrite length_map).
  apply map_nth.
Qed.

(** The prepared image is channel first: its entry at [b, c, i, j] is the
    entry at [b, i, j, c] of the observation's image, divided by 255. *)
Lemma prepare_image_entry (im : bhwc Z) (b c i j : nat) :
  (c < channels (nth b im []))%nat →
  (j < length (nth i (nth b im []) []))%nat →
  at4 0%Q (t_data (prepare_image im)) b c i j
  = (inject_Z (at4 0%Z im b i j c) / 255.0)%Q.
Proof.
  intros Hc Hj. unfold at4, prepare_image, to_device, div_scalar, permute_0312,
    to_float32, map4, bhwc, image in *. simpl.
  rewrite 5!nth_map_nil by done. cbv beta.
  set (imb := nth b im []) in *.
  rewrite channels_map.
  rewrite (nth_map_lt _ (seq 0 (channels imb)) c 0%nat) by (by rewrite length_seq).
  rewrite seq_nth by done. simpl.
  rewrite 2!nth_map_nil by done.
  set (row := nth i imb []) in *.
  rewrite (nth_map_lt _ _ j 0%Q) by (by rewrite !length_map).
  f_equal.
  rewrite (nth_map_lt _ _ j []) by (by rewrite !length_map).
  rewrite (nth_map_nil (map inject_Z)) by done.
  rewrite (map_nth inject_Z _ 0%Z). done.
Qed.

Lemma make_batch_lookup (state : tensor (list (list Q)))
    (top side wrist : tensor (bhwc Q)) :
  let b := make_batch state top side wrist in
  dom b = {[ OBS_STATE; "observation.image2"; "observation.image";
             "observation.image3"; "task" ]} ∧
  b !! OBS_STATE = Some (BState state) ∧
  b !! "observation.image2" = Some (BImage top) ∧
  b !! "observation.image" = Some (BImage wrist) ∧
  b !! "observation.image3" = Some (BImage side) ∧
  b !! "task" = Some (BText "Pick up the red cube.").
Proof.
  intros b. unfold b, make_batch. split.
  { rewrite !dom_insert_L, dom_empty_L. set_solver. }
  repeat split; by repeat (rewrite lookup_insert_ne by done); rewrite lookup_insert_eq.
Qed.

Lemma app_eq_cons_split {A} (l1 l2 hd tl : list A) (x : A) :
  l1 ++ l2 = hd ++ x :: tl →
  (∃ tl1, l1 = hd ++ x :: tl1 ∧ tl = tl1 ++ l2) ∨
  (∃ hd2, hd = l1 ++ hd2 ∧ l2 = hd2 ++ x :: tl).
Proof.
  revert hd. induction l1 as [|a l1 IH]; intros hd H.
  - right. by exists hd.
  - destruct hd as [|b hd]; simpl in H.
    + injection H as -> <-. left. by exists l1.
    + injection H as -> H. destruct (IH hd H) as [(tl1 & -> & ->)|(hd2 & -> & ->)].
      * left. by exists tl1.
      * right. by exists hd2.
Qed.

(** A property of every position of a log that survives extending the log
    on both sides holds for a concatenation if it holds for both parts. *)
Lemma local_app {A} (R : list A → A → list A → Prop) (e1 e2 : list A) :
  (∀ l hd x tl l', R hd x tl → R (l ++ hd) x (tl ++ l')) →
  (∀ hd x tl, e1 = hd ++ x :: tl → R hd x tl) →
  (∀ hd x tl, e2 = hd ++ x :: tl → R hd x tl) →
  ∀ hd x tl, e1 ++ e2 = hd ++ x :: tl → R hd x tl.
Proof.
  intros Hstable H1 H2 hd x tl Heq.
  apply app_eq_cons_split in Heq as [(tl1 & Heq & ->)|(hd2 & -> & Heq)].
  - apply (Hstable [] hd x tl1 e2). by apply H1.
  - rewrite <- (app_nil_r tl). apply (Hstable e1 hd2 x tl []). by apply H2.
Qed.

Section Facts.

Context {action7 : Type}.
Variable convert_7_to_6 : list (list Q) → list Q.
Variable convert_6_to_7 : list (list Q) → action7.
Context {policy_state : Type}.
Variable select_action :
  policy_state → gmap string batch_value → list (list Q) * policy_state.
Context {env_state : Type}.
Variable env_step : env_state → action7 → step_result * env_state.
Variable env_metadata : gmap string nat.

Abbreviation ev := (@event action7).
Abbreviation st := (@locals policy_state env_state).
Abbreviation body := (iteration convert_7_to_6 convert_6_to_7 select_action env_step).
Abbreviation loop := (while_not_done convert_7_to_6 convert_6_to_7 select_action env_step).
Abbreviation main :=
  (script convert_7_to_6 convert_6_to_7 select_action env_step env_metadata).

Implicit Types (tr evs opens closes pre post : list ev) (s : st).
Implicit Types (ws : gmap string string).

#[local] Arguments make_batch : simpl never.
#[local] Arguments prepare_state : simpl never.
#[local] Arguments prepare_image : simpl never.
#[local] Arguments scale_action : simpl never.
#[local] Arguments path_str : simpl never.
#[local] Arguments truediv : simpl never.

Ltac fold_video_path :=
  repeat match goal with
  | |- context [path_str (truediv output_dir (?uid +:+ ".mp4"))] =>
      change (path_str (truediv output_dir (uid +:+ ".mp4"))) with (video_path uid)
  end.

Lemma open_writers_spec uids ws :
  ∃ evs ws',
    open_writers env_metadata uids ws = (evs, Done ws') ∧
    (∀ uid, ws' !! uid = if decide (uid ∈ uids) then Some uid else ws !! uid) ∧
    opened evs = uids ∧
    closed evs = [] ∧ appended evs = [] ∧ env_results evs = [] ∧
    env_actions evs = [] ∧ policy_inputs evs = [] ∧
    policy_outputs evs = [] ∧ verdicts evs = [].
Proof.
  revert ws. induction uids as [|uid uids IH]; intros ws.
  - exists [], ws. repeat split; done.
  - destruct (IH (<[uid := uid]> ws))
      as (evs & ws' & Hrun & Hws & Ho & Hc & Ha & Hr & Hac & Hpi & Hpo & Hv).
    exists (GetWriter uid (video_path uid) (fps env_metadata)
            :: Print (MsgOpened uid (video_path uid)) :: evs), ws'.
    split.
    { simpl. fold_video_path. by rewrite Hrun. }
    split.
    { intros k. rewrite Hws. destruct (decide (k = uid)) as [->|Hne].
      - rewrite lookup_insert_eq. rewrite (decide_True (P := uid ∈ uid :: uids));
          [|by left]. by destruct (decide (uid ∈ uids)).
      - rewrite lookup_insert_ne by done.
        destruct (decide (k ∈ uids)) as [Hin|Hin].
        + by rewrite decide_True by (by right).
        + rewrite decide_False; [done|]. by intros [?|?]%elem_of_cons. }
    match goal with |- context [?a :: ?b :: evs] =>
      change (a :: b :: evs) with ([a; b] ++ evs) end.
    unfold opened, closed, appended, env_results, env_actions, policy_inputs,
      policy_outputs, verdicts in *.
    rewrite !omap_app, Ho, Hc, Ha, Hr, Hac, Hpi, Hpo, Hv. repeat split; done.
Qed.

Lemma close_writers_spec (items : list (string * string)) :
  ∃ evs,
    close_writers (action7 := action7) items = (evs, Done tt) ∧
    closed evs = items.*2 ∧
    opened evs = [] ∧ appended evs = [] ∧ env_results evs = [] ∧
    env_actions evs = [] ∧ policy_inputs evs = [] ∧
    policy_outputs evs = [] ∧ verdicts evs = [].
Proof.
  induction items as [|[uid w] items (evs & Hrun & Hc & Ho & Ha & Hr & Hac & Hpi & Hpo & Hv)].
  - exists []. repeat split; done.
  - exists (CloseWriter w :: Print (MsgSaved uid (video_path uid)) :: evs).
    split.
    { simpl. fold_video_path. by rewrite Hrun. }
    match goal with |- context [?a :: ?b :: evs] =>
      change (a :: b :: evs) with ([a; b] ++ evs) end.
    unfold opened, closed, appended, env_results, env_actions, policy_inputs,
      policy_outputs, verdicts in *.
    rewrite !omap_app, Ho, Hc, Ha, Hr, Hac, Hpi, Hpo, Hv. repeat split; done.
Qed.

Lemma only_appends evs :
  evs = (λ p, AppendData p.1 p.2) <$> appended evs →
  opened evs = [] ∧ closed evs = [] ∧ env_results evs = [] ∧
  env_actions evs = [] ∧ policy_inputs evs = [] ∧
  policy_outputs evs = [] ∧ verdicts evs = [].
Proof.
  intros ->. generalize (appended evs). intros l.
  repeat split; induction l as [|[w f] l IH]; simpl; done.
Qed.

Lemma append_frames_spec ws items :
  ∃ evs out,
    append_frames (action7 := action7) ws items = (evs, out) ∧
    out ≠ OutOfFuel ∧
    evs = (λ p, AppendData p.1 p.2) <$> appended evs ∧
    (∀ p, p ∈ appended evs → ∃ item, item ∈ items ∧ frame_item ws item = Some p) ∧
    (out = Done tt → appended evs = omap (frame_item ws) items ∧
                     Forall (λ item, is_Some (frame_item ws item)) items) ∧
    (∀ e, out = Raised e → ∃ item, item ∈ items ∧ frame_error ws item = Some e).
Proof.
  induction items as [|[uid data] items (evs & out & Hrun & Hfuel & Hev & Hin & Hdone & Herr)].
  - exists [], (Done tt). repeat split; try done.
    intros p Hp. by apply elem_of_nil in Hp.
  - simpl. unfold frame_item at 1 2, frame_error at 1. simpl.
    destruct (frame_of (rgb data)) as [f|] eqn:Hf; simpl.
    + unfold getitem. destruct (ws !! uid) as [w|] eqn:Hw; simpl.
      * rewrite Hrun. exists (AppendData w f :: evs), out.
        change (appended (AppendData w f :: evs)) with ((w, f) :: appended evs).
        split; [done|]. split; [done|].
        split; [rewrite fmap_cons; simpl; f_equal; exact Hev|].
        split.
        { intros p [->|Hp]%elem_of_cons.
          - exists (uid, data). split; [by left|].
            unfold frame_item. simpl. by rewrite Hf, Hw.
          - destruct (Hin p Hp) as (item & ? & ?). exists item.
            split; [by right|done]. }
        split.
        { intros Hd. destruct (Hdone Hd) as [-> HF]. split; [done|].
          constructor; [|done]. unfold frame_item. simpl. rewrite Hf, Hw. eauto. }
        intros e He. destruct (Herr e He) as (item & ? & ?).
        exists item. split; [by right|done].
      * exists [], (Raised (KeyError uid)).
        repeat split; try done.
        { intros p Hp. by apply elem_of_nil in Hp. }
        intros e [= <-]. exists (uid, data). split; [by left|].
        unfold frame_error. simpl. by rewrite Hf, Hw.
    + exists [], (Raised IndexError).
      repeat split; try done.
      { intros p Hp. by apply elem_of_nil in Hp. }
      intros e [= <-]. exists (uid, data). split; [by left|].
      unfold frame_error. simpl. by rewrite Hf.
Qed.

(** The loop body, case by case. *)
Lemma iteration_unfold ws s :
  let obs := raw_observation s in
  let pose := Print (MsgPose (step s) (tcp_pose obs)) in
  body ws s =
  match sensor_data obs !! "top_camera", sensor_data obs !! "side_camera",
        sensor_data obs !! "wrist_camera" with
  | None, _, _ => ([pose], Raised (KeyError "top_camera"))
  | Some _, None, _ => ([pose], Raised (KeyError "side_camera"))
  | Some _, Some _, None => ([pose], Raised (KeyError "wrist_camera"))
  | Some top, Some side, Some wrist =>
      let batch := make_batch (prepare_state (convert_7_to_6 (tcp_pose obs)))
                     (prepare_image (rgb top)) (prepare_image (rgb side))
                     (prepare_image (rgb wrist)) in
      let sel := select_action (policy s) batch in
      let action := convert_6_to_7 (scale_action sel.1) in
      let stp := env_step (env s) action in
      let r := stp.1 in
      let app := append_frames ws (map_to_list (sensor_data (sr_obs r))) in
      ([pose; SelectAction batch sel.1; Print (MsgAction (step s) action);
        EnvStep action r;
        Print (MsgReward (step s) (sr_reward r) (sr_terminated r))] ++ app.1,
       match app.2 with
       | Done _ =>
           Done {| raw_observation := sr_obs r;
                   rewards := rewards s ++ [sr_reward r];
                   frames := frames s;
                   step := S (step s);
                   done := sr_terminated r || sr_truncated r || done s;
                   terminated := Some (sr_terminated r);
                   truncated := Some (sr_truncated r);
                   env := stp.2;
                   policy := sel.2 |}
       | Raised e => Raised e
       | OutOfFuel => OutOfFuel
       end)
  end.
Proof.
  intros obs pose. unfold iteration, getitem. fold obs.
  destruct (sensor_data obs !! "top_camera") as [top|]; [|done].
  destruct (sensor_data obs !! "side_camera") as [side|]; [|done].
  destruct (sensor_data obs !! "wrist_camera") as [wrist|]; [|done].
  cbv zeta. simpl.
  destruct (select_action _ _) as [out p']. simpl.
  destruct (env_step _ _) as [r e']. simpl.
  destruct (append_frames _ _) as [fevs [[]| |]]; simpl; try done.
  by rewrite app_nil_r.
Qed.

(** Either a named camera is missing from the current observation, or the
    body reaches [env.step] and then appends the frames. *)
Lemma iteration_cases ws s :
  let obs := raw_observation s in
  let pose := Print (MsgPose (step s) (tcp_pose obs)) in
  (∃ k, sensor_data obs !! k = None ∧ body ws s = ([pose], Raised (KeyError k)))
  ∨
  (∃ top side wrist batch out p' r e' fevs fout,
     sensor_data obs !! "top_camera" = Some top ∧
     sensor_data obs !! "side_camera" = Some side ∧
     sensor_data obs !! "wrist_camera" = Some wrist ∧
     batch = make_batch (prepare_state (convert_7_to_6 (tcp_pose obs)))
               (prepare_image (rgb top)) (prepare_image (rgb side))
               (prepare_image (rgb wrist)) ∧
     select_action (policy s) batch = (out, p') ∧
     env_step (env s) (convert_6_to_7 (scale_action out)) = (r, e') ∧
     append_frames ws (map_to_list (sensor_data (sr_obs r))) = (fevs, fout) ∧
     body ws s =
       ([pose; SelectAction batch out;
         Print (MsgAction (step s) (convert_6_to_7 (scale_action out)));
         EnvStep (convert_6_to_7 (scale_action out)) r;
         Print (MsgReward (step s) (sr_reward r) (sr_terminated r))] ++ fevs,
        match fout with
        | Done _ =>
            Done {| raw_observation := sr_obs r;
                    rewards := rewards s ++ [sr_reward r];
                    frames := frames s;
                    step := S (step s);
                    done := sr_terminated r || sr_truncated r || done s;
                    terminated := Some (sr_terminated r);
                    truncated := Some (sr_truncated r);
                    env := e';
                    policy := p' |}
        | Raised e => Raised e
        | OutOfFuel => OutOfFuel
        end)).
Proof.
  intros obs pose. rewrite iteration_unfold. cbv zeta. fold obs. fold pose.
  destruct (sensor_data obs !! "top_camera") as [top|] eqn:Ht; [|left; eauto].
  destruct (sensor_data obs !! "side_camera") as [side|] eqn:Hs; [|left; eauto].
  destruct (sensor_data obs !! "wrist_camera") as [wrist|] eqn:Hw; [|left; eauto].
  right.
  destruct (select_action _ _) as [out p'] eqn:Hsel.
  destruct (env_step _ _) as [r e'] eqn:Hstep.
  destruct (append_frames _ _) as [fevs fout] eqn:Happ.
  exists top, side, wrist. eexists. exists out, p', r, e', fevs, fout.
  simpl in *. repeat split; try done.
Qed.

(** The loop body has no loop of its own. *)
Lemma iteration_fuel ws s : (body ws s).2 ≠ OutOfFuel.
Proof.
  destruct (iteration_cases ws s) as [(k & _ & ->)|H]; [done|].
  destruct H as (top & side & wrist & batch & out & p' & r & e' & fevs & fout
                 & _ & _ & _ & _ & _ & _ & Happ & ->).
  destruct (append_frames_spec ws (map_to_list (sensor_data (sr_obs r))))
    as (? & ? & Happ' & Hnf & _).
  rewrite Happ in Happ'. injection Happ' as <- <-.
  by destruct fout.
Qed.

(** Induction over the executions of the [while] loop. *)
Lemma while_not_done_ind ws (P : st → list ev → outcome st → Prop) :
  (∀ s, done s = true → P s [] (Done s)) →
  (∀ s, done s = false → P s [] OutOfFuel) →
  (∀ s evs e, done s = false → body ws s = (evs, Raised e) → P s evs (Raised e)) →
  (∀ s evs s' evs' out,
     done s = false → body ws s = (evs, Done s') → P s' evs' out →
     P s (evs ++ evs') out) →
  ∀ fuel s, P s (loop fuel ws s).1 (loop fuel ws s).2.
Proof.
  intros Hexit Hfuel Hraise Hstep. induction fuel as [|fuel IH]; intros s.
  - simpl. destruct (done s) eqn:Hd; simpl; auto.
  - simpl. destruct (done s) eqn:Hd; simpl; [auto|].
    rewrite M_bind_unfold.
    destruct (body ws s) as [evs [s'| e |]] eqn:Hb; simpl.
    + apply (Hstep s evs s'); [done|done|apply IH].
    + by apply Hraise.
    + exfalso. apply (iteration_fuel ws s). by rewrite Hb.
Qed.

(** The writers dictionary after lines 93-98. *)
Lemma writers_spec (sd : gmap string camera_data) :
  let uids := (map_to_list sd).*1 in
  ∃ opens ws,
    open_writers env_metadata uids ∅ = (opens, Done ws) ∧
    (∀ uid, ws !! uid = if decide (uid ∈ dom sd) then Some uid else None) ∧
    (map_to_list ws).*2 ≡ₚ uids ∧
    NoDup uids ∧
    opened opens = uids ∧
    closed opens = [] ∧ appended opens = [] ∧ env_results opens = [] ∧
    env_actions opens = [] ∧ policy_inputs opens = [] ∧
    policy_outputs opens = [] ∧ verdicts opens = [].
Proof.
  intros uids.
  destruct (open_writers_spec uids ∅) as (opens & ws & Hrun & Hws & Hrest).
  assert (Hnd : NoDup uids) by apply NoDup_fst_map_to_list.
  assert (Hdom : ∀ uid, uid ∈ uids ↔ uid ∈ dom sd).
  { intros uid. unfold uids. rewrite elem_of_dom, list_elem_of_fmap. split.
    - intros ([k v] & -> & Hin). apply elem_of_map_to_list in Hin. eauto.
    - intros [v Hv]. exists (uid, v). split; [done|]. by apply elem_of_map_to_list. }
  exists opens, ws. split; [done|]. split.
  { intros uid. rewrite Hws, lookup_empty.
    destruct (decide (uid ∈ uids)) as [Hin|Hin], (decide (uid ∈ dom sd)) as [Hd|Hd];
      try done; exfalso; rewrite Hdom in Hin; done. }
  split.
  { set (l := (λ uid, (uid, uid)) <$> uids).
    assert (Hl1 : l.*1 = uids).
    { unfold l. rewrite <- list_fmap_compose. apply list_fmap_id. }
    assert (Hl2 : l.*2 = uids).
    { unfold l. rewrite <- list_fmap_compose. apply list_fmap_id. }
    assert (ws = list_to_map l) as ->.
    { apply map_eq. intros uid. rewrite Hws, lookup_empty.
      destruct (decide (uid ∈ uids)) as [Hin|Hin].
      - symmetry. apply elem_of_list_to_map_1; [by rewrite Hl1|].
        unfold l. apply list_elem_of_fmap. eauto.
      - symmetry. apply not_elem_of_list_to_map_1. by rewrite Hl1. }
    rewrite <- Hl2. apply fmap_Permutation, map_to_list_to_map. by rewrite Hl1. }
  split; done.
Qed.

(** The script is the opening loop, the rollout loop and the teardown. *)
Lemma script_unfold fuel obs0 e0 p0 opens ws :
  open_writers env_metadata (map_to_list (sensor_data obs0)).*1 ∅ = (opens, Done ws) →
  let lp := loop fuel ws (init obs0 e0 p0) in
  main fuel obs0 e0 p0 =
    match lp.2 with
    | Done s =>
        match terminated s with
        | Some t =>
            (opens ++ lp.1 ++ Print (if t then MsgSuccess else MsgFailure)
                   :: (close_writers (map_to_list ws)).1, Done s)
        | None => (opens ++ lp.1, Raised (NameError "terminated"))
        end
    | Raised e => (opens ++ lp.1, Raised e)
    | OutOfFuel => (opens ++ lp.1, OutOfFuel)
    end.
Proof.
  intros Hopen lp. unfold script. rewrite Hopen, M_bind_unfold.
  rewrite M_bind_unfold. fold lp.
  destruct lp as [levs [s| e |]]; simpl; try done.
  unfold teardown. destruct (terminated s) as [t|]; simpl; [|by rewrite app_nil_r].
  destruct (close_writers_spec (map_to_list ws)) as (closes & -> & _).
  simpl. by rewrite app_nil_r.
Qed.

Lemma while_not_done_log ws (P : list ev → Prop) :
  P [] →
  (∀ e1 e2, P e1 → P e2 → P (e1 ++ e2)) →
  (∀ s, P (body ws s).1) →
  ∀ fuel s, P (loop fuel ws s).1.
Proof.
  intros Hnil Happ Hbody.
  apply (while_not_done_ind ws (λ _ evs _, P evs)); auto.
  - intros s evs e _ Hb. specialize (Hbody s). by rewrite Hb in Hbody.
  - intros s evs s' evs' out _ Hb Hrest. apply Happ; [|done].
    specialize (Hbody s). by rewrite Hb in Hbody.
Qed.

(** The frames appended in one pass over the cameras. *)
Lemma append_frames_log ws items :
  let evs := (append_frames (action7 := action7) ws items).1 in
  opened evs = [] ∧ closed evs = [] ∧ env_results evs = [] ∧
  env_actions evs = [] ∧ policy_inputs evs = [] ∧
  policy_outputs evs = [] ∧ verdicts evs = [].
Proof.
  destruct (append_frames_spec ws items) as (evs & out & -> & _ & Hev & _).
  by apply only_appends.
Qed.

Lemma iteration_actions ws s :
  let evs := (body ws s).1 in
  env_actions evs = (λ out, convert_6_to_7 (scale_action out)) <$> policy_outputs evs ∧
  opened evs = [] ∧ closed evs = [] ∧ verdicts evs = [].
Proof.
  destruct (iteration_cases ws s) as [(k & _ & ->)|H]; [done|].
  destruct H as (top & side & wrist & batch & out & p' & r & e' & fevs & fout
                 & _ & _ & _ & _ & _ & _ & Happ & ->).
  destruct (append_frames_log ws (map_to_list (sensor_data (sr_obs r))))
    as (Ho & Hc & Hr & Ha & Hpi & Hpo & Hv).
  rewrite Happ in *. cbn [fst snd] in *.
  unfold env_actions, policy_outputs, opened, closed, verdicts in *.
  rewrite !omap_app, Ho, Hc, Ha, Hpo, Hv. done.
Qed.

Lemma loop_actions ws fuel s :
  let evs := (loop fuel ws s).1 in
  env_actions evs = (λ out, convert_6_to_7 (scale_action out)) <$> policy_outputs evs ∧
  opened evs = [] ∧ closed evs = [] ∧ verdicts evs = [].
Proof.
  apply (while_not_done_log ws (λ evs,
    env_actions evs = (λ out, convert_6_to_7 (scale_action out)) <$> policy_outputs evs ∧
    opened evs = [] ∧ closed evs = [] ∧ verdicts evs = [])).
  - done.
  - intros e1 e2 (H1 & H2 & H3 & H4) (H1' & H2' & H3' & H4').
    unfold env_actions, policy_outputs, opened, closed, verdicts in *.
    rewrite !omap_app, fmap_app, H1, H2, H3, H4, H1', H2', H3', H4'. done.
  - intros s'. apply iteration_actions.
Qed.

(** The logs of the opening loop and of the teardown, whatever the outcome. *)
Lemma script_log fuel obs0 e0 p0 :
  ∃ opens ws tail,
    open_writers env_metadata (map_to_list (sensor_data obs0)).*1 ∅ = (opens, Done ws) ∧
    (main fuel obs0 e0 p0).1 = opens ++ (loop fuel ws (init obs0 e0 p0)).1 ++ tail ∧
    env_results tail = [] ∧ env_actions tail = [] ∧ policy_inputs tail = [] ∧
    policy_outputs tail = [] ∧ opened tail = [] ∧ appended tail = [].
Proof.
  destruct (writers_spec (sensor_data obs0)) as (opens & ws & Hopen & _).
  exists opens, ws. rewrite (script_unfold fuel obs0 e0 p0 opens ws Hopen).
  destruct (loop fuel ws (init obs0 e0 p0)) as [levs [s| e |]]; simpl.
  - destruct (terminated s) as [t|]; simpl.
    + eexists. split; [done|]. split; [reflexivity|].
      destruct (close_writers_spec (map_to_list ws))
        as (closes & -> & Hc & Ho & Ha & Hr & Hac & Hpi & Hpo & Hv). simpl.
      unfold env_results, env_actions, policy_inputs, policy_outputs, opened, appended in *.
      destruct t; simpl; rewrite ?Hr, ?Hac, ?Hpi, ?Hpo, ?Ho, ?Ha; done.
    + exists []. by rewrite app_nil_r.
  - exists []. by rewrite app_nil_r.
  - exists []. by rewrite app_nil_r.
Qed.

Lemma frames_of_app (w : string) evs evs' :
  frames_of w (evs ++ evs') = frames_of w evs ++ frames_of w evs'.
Proof. unfold frames_of, appended. by rewrite omap_app, filter_app, fmap_app. Qed.

Lemma frames_of_silent (w : string) evs : appended evs = [] → frames_of w evs = [].
Proof. unfold frames_of. by intros ->. Qed.

Lemma count_key {A} (l : list (string * A)) (k : string) :
  NoDup l.*1 →
  length (filter (λ it, it.1 = k) l) = if decide (k ∈ l.*1) then 1 else 0.
Proof.
  induction l as [|[k' a] l IH]; intros Hnd; [done|].
  simpl in Hnd. apply NoDup_cons in Hnd as [Hk' Hnd].
  rewrite filter_cons. simpl. destruct (decide (k' = k)) as [->|Hne].
  - simpl. rewrite IH by done. rewrite decide_False by done.
    rewrite decide_True; [done|by left].
  - rewrite IH by done. destruct (decide (k ∈ l.*1)) as [Hin|Hin].
    + rewrite decide_True; [done|by right].
    + rewrite decide_False; [done|]. intros [?|?]%elem_of_cons; [congruence|done].
Qed.

(** One pass over the cameras of an observation gives each writer the frame
    of its own camera, once. *)
Lemma frames_of_pass ws (items : list (string * camera_data)) (uid : string) :
  keyed_by_camera ws →
  Forall (λ item, is_Some (frame_item ws item)) items →
  length (filter (λ p : string * image Z, p.1 = uid)
            (omap (frame_item ws) items))
  = length (filter (λ it, it.1 = uid) items).
Proof.
  intros Hkey. induction 1 as [|[k d] items [[w f] Hwf] _ IH]; [done|].
  cbn [omap list_omap]. rewrite Hwf. rewrite !filter_cons. cbn [fst].
  assert (w = k) as ->.
  { unfold frame_item in Hwf. simpl in Hwf.
    destruct (frame_of (rgb d)); [|done]. destruct (ws !! k) eqn:Hk; [|done].
    injection Hwf as <- <-. by apply Hkey. }
  destruct (decide (k = uid)) as [->|Hne]; [|exact IH].
  simpl. by rewrite <- IH.
Qed.

(** What a completed pass through the loop body did. *)
Lemma iteration_Done ws s evs s' :
  body ws s = (evs, Done s') →
  ∃ r, env_results evs = [r] ∧
       step s' = S (step s) ∧ frames s' = frames s ∧
       terminated s' = Some (sr_terminated r) ∧
       done s' = sr_terminated r || sr_truncated r || done s ∧
       raw_observation s' = sr_obs r ∧
       appended evs = omap (frame_item ws) (map_to_list (sensor_data (sr_obs r))) ∧
       Forall (λ item, is_Some (frame_item ws item))
         (map_to_list (sensor_data (sr_obs r))).
Proof.
  intros Hb. destruct (iteration_cases ws s) as [(k & _ & Hk)|H].
  { rewrite Hk in Hb. discriminate. }
  destruct H as (top & side & wrist & batch & out & p' & r & e' & fevs & fout
                 & _ & _ & _ & _ & _ & _ & Happ & Hk).
  rewrite Hk in Hb.
  destruct (append_frames_spec ws (map_to_list (sensor_data (sr_obs r))))
    as (fevs' & fout' & Happ' & _ & Hev & _ & Hdone & _).
  rewrite Happ in Happ'. injection Happ' as <- <-.
  destruct fout as [[]| |]; try discriminate.
  match type of Hb with (?l, Done ?x) = _ =>
    assert (evs = l) as -> by congruence; assert (s' = x) as -> by congruence
  end.
  destruct (Hdone eq_refl) as [Hap HF].
  destruct (only_appends fevs Hev) as (_ & _ & Hr & _).
  exists r. unfold env_results, appended in *.
  rewrite !omap_app, Hr, Hap. simpl. repeat split; done.
Qed.

Lemma iteration_frames ws s evs s' (uid : string) :
  keyed_by_camera ws →
  body ws s = (evs, Done s') →
  length (frames_of uid evs)
  = length (filter (shows uid) (env_results evs)).
Proof.
  intros Hkey Hb.
  destruct (iteration_Done ws s evs s' Hb) as (r & -> & _ & _ & _ & _ & _ & Hap & HF).
  unfold frames_of. rewrite Hap, length_fmap, frames_of_pass by done.
  rewrite count_key by apply NoDup_fst_map_to_list.
  rewrite filter_cons, filter_nil. unfold shows.
  assert (uid ∈ (map_to_list (sensor_data (sr_obs r))).*1
          ↔ uid ∈ dom (sensor_data (sr_obs r))) as Hiff.
  { rewrite elem_of_dom, list_elem_of_fmap. split.
    - intros ([k v] & -> & Hin). apply elem_of_map_to_list in Hin. eauto.
    - intros [v Hv]. exists (uid, v). split; [done|]. by apply elem_of_map_to_list. }
  destruct (decide (uid ∈ (map_to_list (sensor_data (sr_obs r))).*1)) as [Hin|Hin].
  - rewrite decide_True; [done|]. by apply Hiff.
  - rewrite decide_False; [done|]. by rewrite <- Hiff.
Qed.

(** What the loop has done when it is left through its condition. *)
Lemma loop_Done ws fuel s s' :
  keyed_by_camera ws →
  (loop fuel ws s).2 = Done s' →
  let evs := (loop fuel ws s).1 in
  step s' = step s + length (env_results evs) ∧
  frames s' = frames s ∧
  done s' = true ∧
  terminated s'
    = from_option (λ r, Some (sr_terminated r)) (terminated s) (last (env_results evs)) ∧
  (done s = false → env_results evs ≠ []) ∧
  (∀ uid, length (frames_of uid evs)
          = length (filter (shows uid) (env_results evs))).
Proof.
  intros Hkey. revert s'.
  apply (while_not_done_ind ws (λ s evs out, ∀ s', out = Done s' →
    step s' = step s + length (env_results evs) ∧
    frames s' = frames s ∧
    done s' = true ∧
    terminated s'
      = from_option (λ r, Some (sr_terminated r)) (terminated s) (last (env_results evs)) ∧
    (done s = false → env_results evs ≠ []) ∧
    (∀ uid, length (frames_of uid evs)
            = length (filter (shows uid) (env_results evs))))).
  - intros s0 Hd s' [= <-]. simpl. repeat split; try done; try lia.
    intros. congruence.
  - intros s0 _ s' [=].
  - intros s0 evs e _ _ s' [=].
  - intros s0 evs s1 evs' out Hd Hb IH s' ->.
    destruct (IH s' eq_refl) as (Hstep & Hfr & Hdone & Hterm & _ & Hframes).
    destruct (iteration_Done ws s0 evs s1 Hb)
      as (r & Hr & Hstep1 & Hfr1 & Hterm1 & _ & _ & _ & _).
    assert (Her : env_results (evs ++ evs') = r :: env_results evs').
    { unfold env_results in *. by rewrite omap_app, Hr. }
    rewrite Her. repeat split.
    + simpl. lia.
    + congruence.
    + done.
    + rewrite Hterm, Hterm1. change (r :: env_results evs') with ([r] ++ env_results evs').
      rewrite last_app. by destruct (last (env_results evs')).
    + done.
    + intros uid. rewrite frames_of_app, length_app, Hframes.
      rewrite (iteration_frames ws s0 evs s1 uid Hkey Hb), Hr.
      change (r :: env_results evs') with ([r] ++ env_results evs').
      by rewrite filter_app, length_app.
Qed.

Lemma writers_keyed (sd : gmap string camera_data) ws :
  (∀ uid, ws !! uid = if decide (uid ∈ dom sd) then Some uid else None) →
  keyed_by_camera ws ∧ dom ws = dom sd.
Proof.
  intros Hws. split.
  - intros uid w. rewrite Hws. destruct (decide (uid ∈ dom sd)); congruence.
  - apply set_eq. intros uid. rewrite (elem_of_dom ws), Hws.
    destruct (decide (uid ∈ dom sd)); split; try done; eauto.
Qed.

(** A run that reaches the end of the script: its log in three parts. *)
Lemma script_Done fuel obs0 e0 p0 tr s :
  main fuel obs0 e0 p0 = (tr, Done s) →
  ∃ opens ws levs closes t,
    open_writers env_metadata (map_to_list (sensor_data obs0)).*1 ∅ = (opens, Done ws) ∧
    loop fuel ws (init obs0 e0 p0) = (levs, Done s) ∧
    close_writers (map_to_list ws) = (closes, Done tt) ∧
    terminated s = Some t ∧
    tr = opens ++ levs ++ Print (if t then MsgSuccess else MsgFailure) :: closes.
Proof.
  intros Hrun.
  destruct (writers_spec (sensor_data obs0)) as (opens & ws & Hopen & _).
  rewrite (script_unfold fuel obs0 e0 p0 opens ws Hopen) in Hrun.
  destruct (loop fuel ws (init obs0 e0 p0)) as [levs [s1| e |]] eqn:Hloop;
    simpl in Hrun; try discriminate.
  destruct (terminated s1) as [t|] eqn:Ht; try discriminate.
  destruct (close_writers_spec (map_to_list ws)) as (closes & Hclose & _).
  rewrite Hclose in Hrun. simpl in Hrun.
  exists opens, ws, levs, closes, t.
  assert (s1 = s) as -> by congruence.
  repeat split; try done. congruence.
Qed.

Lemma appended_elem evs (w : string) (f : image Z) :
  AppendData w f ∈ evs ↔ (w, f) ∈ appended evs.
Proof.
  unfold appended. rewrite list_elem_of_omap. split.
  - intros H. by exists (AppendData w f).
  - intros (x & Hx & Hf). destruct x; try discriminate. by injection Hf as -> ->.
Qed.

Lemma elem_of_keys {A} (m : gmap string A) (k : string) :
  k ∈ (map_to_list m).*1 ↔ k ∈ dom m.
Proof.
  rewrite elem_of_dom, list_elem_of_fmap. split.
  - intros ([k' v] & -> & Hin). apply elem_of_map_to_list in Hin. eauto.
  - intros [v Hv]. exists (k, v). split; [done|]. by apply elem_of_map_to_list.
Qed.

(** Every frame appended in the loop body comes from the observation that
    [env.step] has just returned. *)
Lemma iteration_frame ws s pre w f post :
  (body ws s).1 = pre ++ AppendData w f :: post →
  ∃ r item, last (env_results pre) = Some r ∧
            item ∈ map_to_list (sensor_data (sr_obs r)) ∧
            frame_item ws item = Some (w, f).
Proof.
  destruct (iteration_cases ws s) as [(k & _ & ->)|H]; simpl.
  { intros Heq.
    match type of Heq with ?l = _ => assert (AppendData w f ∈ l) as Hin end.
    { rewrite Heq. apply elem_of_app. right. by left. }
    apply list_elem_of_singleton in Hin. discriminate. }
  destruct H as (top & side & wrist & batch & out & p' & r & e' & fevs & fout
                 & _ & _ & _ & _ & _ & _ & Happ & ->).
  cbn [fst]. intros Heq.
  destruct (append_frames_spec ws (map_to_list (sensor_data (sr_obs r))))
    as (fevs' & fout' & Happ' & _ & Hev & Hin & _).
  rewrite Happ in Happ'. injection Happ' as <- <-.
  destruct (only_appends fevs Hev) as (_ & _ & Hr & _).
  apply app_eq_cons_split in Heq as [(post1 & Heq & _)|(pre2 & -> & Heq)].
  - exfalso.
    match type of Heq with ?l = _ => assert (AppendData w f ∈ l) as Hmem end.
    { rewrite Heq. apply elem_of_app. right. by left. }
    repeat (apply elem_of_cons in Hmem as [Hmem|Hmem]; [discriminate|]).
    by apply elem_of_nil in Hmem.
  - assert (env_results pre2 = []) as Hr2.
    { rewrite Heq in Hr. unfold env_results in *. rewrite omap_app in Hr.
      by apply app_eq_nil in Hr as [? _]. }
    destruct (Hin (w, f)) as (item & Hitem & Hfi).
    { apply appended_elem. rewrite Heq. apply elem_of_app. right. by left. }
    exists r, item. split; [|done].
    unfold env_results in *. rewrite omap_app, Hr2. done.
Qed.

Lemma loop_frame ws fuel s pre w f post :
  (loop fuel ws s).1 = pre ++ AppendData w f :: post →
  ∃ r item, last (env_results pre) = Some r ∧
            item ∈ map_to_list (sensor_data (sr_obs r)) ∧
            frame_item ws item = Some (w, f).
Proof.
  revert pre w f post.
  apply (while_not_done_log ws (λ evs, ∀ pre w f post,
    evs = pre ++ AppendData w f :: post →
    ∃ r item, last (env_results pre) = Some r ∧
              item ∈ map_to_list (sensor_data (sr_obs r)) ∧
              frame_item ws item = Some (w, f))).
  - intros pre w f post H. by destruct pre.
  - intros e1 e2 H1 H2 pre w f post Heq.
    apply app_eq_cons_split in Heq as [(post1 & Heq & _)|(pre2 & -> & Heq)].
    + eauto.
    + destruct (H2 _ _ _ _ Heq) as (r & item & Hlast & Hitem & Hfi).
      exists r, item. split; [|done].
      unfold env_results in *. rewrite omap_app, last_app, Hlast. done.
  - intros s0 pre w f post. apply iteration_frame.
Qed.

Lemma script_frame fuel obs0 e0 p0 pre w f post :
  (main fuel obs0 e0 p0).1 = pre ++ AppendData w f :: post →
  ∃ r uid data, last (env_results pre) = Some r ∧
                sensor_data (sr_obs r) !! uid = Some data ∧
                uid ∈ dom (sensor_data obs0) ∧
                w = uid ∧
                frame_of (rgb data) = Some f.
Proof.
  destruct (script_log fuel obs0 e0 p0)
    as (opens & ws & tail & Hopen & -> & _ & _ & _ & _ & _ & Hta).
  destruct (writers_spec (sensor_data obs0))
    as (opens' & ws' & Hopen' & Hws & _ & _ & _ & _ & Hoa & Hor & _).
  rewrite Hopen in Hopen'. injection Hopen' as <- <-.
  intros Heq.
  apply app_eq_cons_split in Heq as [(post1 & Heq & _)|(pre2 & -> & Heq)].
  { exfalso. assert ((w, f) ∈ appended opens) as Hin.
    { apply appended_elem. rewrite Heq. apply elem_of_app. right. by left. }
    rewrite Hoa in Hin. by apply elem_of_nil in Hin. }
  apply app_eq_cons_split in Heq as [(post1 & Heq & _)|(pre3 & -> & Heq)].
  - destruct (loop_frame _ _ _ _ _ _ _ Heq) as (r & [uid data] & Hlast & Hitem & Hfi).
    apply elem_of_map_to_list in Hitem.
    unfold frame_item in Hfi. simpl in Hfi.
    destruct (frame_of (rgb data)) as [f'|] eqn:Hf; [|done].
    destruct (ws !! uid) as [w'|] eqn:Hw; [|done]. injection Hfi as -> ->.
    rewrite Hws in Hw. destruct (decide (uid ∈ dom (sensor_data obs0))); [|done].
    injection Hw as <-.
    exists r, uid, data. unfold env_results in *. rewrite omap_app, Hor. done.
  - exfalso. assert ((w, f) ∈ appended tail) as Hin.
    { apply appended_elem. rewrite Heq. apply elem_of_app. right. by left. }
    rewrite Hta in Hin. by apply elem_of_nil in Hin.
Qed.

(** C10. Every frame handed to a video writer is batch element 0 of the
    image that the latest [env.step] returned for the writer's camera, cut to
    its first three channels and cast to uint8: each entry of the frame is
    the image's entry reduced modulo 256, hence between 0 and 255, whatever
    integer the image holds.  No pixel of a written frame has a fourth
    channel, and the list [frames] is still empty when the script ends. *)
Theorem frame_is_rgb_of_latest_observation fuel obs0 e0 p0 :
  let run := main fuel obs0 e0 p0 in
  (∀ pre w f post,
     run.1 = pre ++ AppendData w f :: post →
     ∃ r data im rest,
       last (env_results pre) = Some r ∧
       sensor_data (sr_obs r) !! w = Some data ∧
       rgb data = im :: rest ∧
       f = map (map (λ px, (λ z, z mod 256)%Z <$> take 3 px)) im ∧
       Forall (Forall (λ px, (length px ≤ 3)%nat ∧
                             Forall (λ z, (0 ≤ z < 256)%Z) px)) f) ∧
  (∀ s, run.2 = Done s → frames s = []).
Proof.
  split.
  - intros pre w f post Heq.
    destruct (script_frame _ _ _ _ _ _ _ _ Heq)
      as (r & uid & data & Hlast & Hsd & _ & -> & Hf).
    unfold frame_of, index0_first3 in Hf.
    destruct (rgb data) as [|im rest] eqn:Hrgb; [done|]. simpl in Hf.
    injection Hf as <-. exists r, data, im, rest.
    repeat split; try done.
    + rewrite map_map. apply map_ext. intros row. rewrite map_map. done.
    + rewrite !Forall_map. apply Forall_forall. intros row _.
      simpl. rewrite !Forall_map. apply Forall_forall. intros px _.
      simpl. split; [rewrite length_map, length_take; lia|].
      rewrite Forall_map. apply Forall_forall. intros z _.
      unfold astype_uint8. apply Z.mod_pos_bound. lia.
  - intros s Hs. destruct (main fuel obs0 e0 p0) as [tr out] eqn:Hrun.
    simpl in Hs. subst out.
    destruct (script_Done _ _ _ _ _ _ Hrun)
      as (opens & ws & levs & closes & t & Hopen & Hloop & _).
    destruct (writers_spec (sensor_data obs0)) as (opens' & ws' & Hopen' & Hws & _).
    rewrite Hopen in Hopen'. injection Hopen' as <- <-.
    destruct (writers_keyed _ _ Hws) as [Hkey _].
    pose proof (loop_Done ws fuel (init obs0 e0 p0) s Hkey) as H.
    rewrite Hloop in H. destruct (H eq_refl) as (_ & Hfr & _). done.
Qed.

(** The paths on which the opening loop opens the writers. *)
Lemma open_writers_paths uids ws :
  opened_paths (action7 := action7) (open_writers env_metadata uids ws).1
  = video_path <$> uids.
Proof.
  revert ws. induction uids as [|uid uids IH]; intros ws; [done|].
  simpl. fold_video_path. specialize (IH (<[uid := uid]> ws)).
  destruct (open_writers _ _ _) as [evs out]. simpl in *. by rewrite IH.
Qed.

Lemma opened_paths_nil evs : opened evs = [] → opened_paths evs = [].
Proof. induction evs as [|[]]; simpl; try done. Qed.

(** Whatever the outcome, the script has opened one writer per camera of
    the initial observation, on the path of that camera, and no other. *)
Lemma script_opened fuel obs0 e0 p0 :
  let tr := (main fuel obs0 e0 p0).1 in
  opened tr = (map_to_list (sensor_data obs0)).*1 ∧
  opened_paths tr = video_path <$> (map_to_list (sensor_data obs0)).*1.
Proof.
  destruct (script_log fuel obs0 e0 p0)
    as (opens & ws & tail & Hopen & Hlog & _ & _ & _ & _ & Hto & _).
  destruct (writers_spec (sensor_data obs0))
    as (opens' & ws' & Hopen' & _ & _ & _ & Hoo & _).
  rewrite Hopen in Hopen'. injection Hopen' as <- <-.
  destruct (loop_actions ws fuel (init obs0 e0 p0)) as (_ & Hlo & _).
  pose proof (open_writers_paths (map_to_list (sensor_data obs0)).*1 ∅) as Hop.
  rewrite Hopen in Hop. cbn [fst] in Hop.
  cbv zeta. rewrite Hlog. unfold opened, opened_paths in *.
  rewrite !omap_app, Hoo, Hop, Hlo, Hto.
  fold (opened_paths (loop fuel ws (init obs0 e0 p0)).1).
  fold (opened_paths tail).
  rewrite (opened_paths_nil _ Hlo), (opened_paths_nil _ Hto).
  by rewrite !app_nil_r.
Qed.

Lemma loop_appended ws fuel s (w : string) (f : image Z) :
  (w, f) ∈ appended (loop fuel ws s).1 → ∃ uid, ws !! uid = Some w.
Proof.
  intros Hin. apply appended_elem, list_elem_of_split in Hin as (pre & post & Heq).
  destruct (loop_frame _ _ _ _ _ _ _ Heq) as (r & [uid data] & _ & _ & Hfi).
  unfold frame_item in Hfi. simpl in Hfi.
  destruct (frame_of (rgb data)); [|done].
  destruct (ws !! uid) as [w'|] eqn:Hw; [|done]. injection Hfi as -> _. eauto.
Qed.

(** C5. On a run that reaches the end of the script the log splits into an
    opening part, the rollout and a closing part.  The opening part opens
    one writer for each camera of the initial observation, each on the path
    of its camera, and appends and closes nothing.  The rollout opens and
    closes nothing and appends only to writers opened before.  The closing
    part closes each opened writer once and neither opens nor appends.
    Writers are told apart by the camera they were created for, not by their
    path. *)
Theorem writer_lifecycle fuel obs0 e0 p0 tr s :
  main fuel obs0 e0 p0 = (tr, Done s) →
  ∃ opens mid closes,
    tr = opens ++ mid ++ closes ∧
    opened opens = (map_to_list (sensor_data obs0)).*1 ∧
    NoDup (opened opens) ∧
    (∀ uid, uid ∈ dom (sensor_data obs0) ↔ uid ∈ opened opens) ∧
    opened_paths opens = video_path <$> opened opens ∧
    appended opens = [] ∧ closed opens = [] ∧
    opened mid = [] ∧ closed mid = [] ∧
    (∀ w f, (w, f) ∈ appended mid → w ∈ opened opens) ∧
    opened closes = [] ∧ appended closes = [] ∧
    closed closes ≡ₚ opened opens.
Proof.
  intros Hrun.
  destruct (script_Done _ _ _ _ _ _ Hrun)
    as (opens & ws & levs & closes & t & Hopen & Hloop & Hclose & Hterm & ->).
  destruct (writers_spec (sensor_data obs0))
    as (opens' & ws' & Hopen' & Hws & Hperm & Hnd & Hoo & Hoc & Hoa & _).
  rewrite Hopen in Hopen'. injection Hopen' as <- <-.
  destruct (close_writers_spec (map_to_list ws))
    as (closes' & Hclose' & Hcc & Hco & Hca & _).
  rewrite Hclose in Hclose'. injection Hclose' as <-.
  destruct (loop_actions ws fuel (init obs0 e0 p0)) as (_ & Hlo & Hlc & _).
  rewrite Hloop in Hlo, Hlc. simpl in Hlo, Hlc.
  pose proof (open_writers_paths (map_to_list (sensor_data obs0)).*1 ∅) as Hop.
  rewrite Hopen in Hop. cbn [fst] in Hop.
  exists opens, levs, (Print (if t then MsgSuccess else MsgFailure) :: closes).
  rewrite Hoo. repeat split; try done.
  - by apply elem_of_keys.
  - by apply elem_of_keys.
  - intros w f Hin.
    assert ((w, f) ∈ appended (loop fuel ws (init obs0 e0 p0)).1) as Hin'
      by by rewrite Hloop.
    apply loop_appended in Hin' as (uid & Hw). rewrite Hws in Hw.
    destruct (decide (uid ∈ dom (sensor_data obs0))) as [Hd|]; [|done].
    injection Hw as <-. by apply elem_of_keys.
  - change (closed closes ≡ₚ (map_to_list (sensor_data obs0)).*1).
    by rewrite Hcc.
Qed.

(** C8. On a run that reaches the end of the script, exactly one verdict is
    printed, after the last [env.step]: "Success!" if the terminated flag
    that this last call returned is true and "Failure!" otherwise.  No writer
    is closed before the verdict; the writers opened before it are those of
    the cameras of the initial observation, each on the path of its camera,
    and after it each of them is closed. *)
Theorem verdict_is_final_terminated_flag fuel obs0 e0 p0 tr s :
  main fuel obs0 e0 p0 = (tr, Done s) →
  ∃ pre r closes,
    tr = pre ++ Print (if sr_terminated r then MsgSuccess else MsgFailure) :: closes ∧
    last (env_results pre) = Some r ∧
    env_results closes = [] ∧
    verdicts pre = [] ∧ verdicts closes = [] ∧
    closed pre = [] ∧
    opened pre = (map_to_list (sensor_data obs0)).*1 ∧
    opened_paths pre = video_path <$> opened pre ∧
    closed closes ≡ₚ opened pre.
Proof.
  intros Hrun.
  destruct (script_Done _ _ _ _ _ _ Hrun)
    as (opens & ws & levs & closes & t & Hopen & Hloop & Hclose & Hterm & ->).
  destruct (writers_spec (sensor_data obs0))
    as (opens' & ws' & Hopen' & Hws & Hperm & _ & Hoo & Hoc & _ & Hor & _ & _ & _ & Hov).
  rewrite Hopen in Hopen'. injection Hopen' as <- <-.
  destruct (close_writers_spec (map_to_list ws))
    as (closes' & Hclose' & Hcc & _ & _ & Hcr & _ & _ & _ & Hcv).
  rewrite Hclose in Hclose'. injection Hclose' as <-.
  destruct (loop_actions ws fuel (init obs0 e0 p0)) as (_ & Hlo & Hlc & Hlv).
  destruct (writers_keyed _ _ Hws) as [Hkey _].
  pose proof (loop_Done ws fuel (init obs0 e0 p0) s Hkey) as HD.
  rewrite Hloop in HD, Hlo, Hlc, Hlv. simpl in HD, Hlo, Hlc, Hlv.
  destruct (HD eq_refl) as (_ & _ & _ & Ht & Hne & _).
  destruct (last (env_results levs)) as [r|] eqn:Hlast.
  2:{ apply last_None in Hlast. by destruct (Hne eq_refl). }
  simpl in Ht. rewrite Hterm in Ht. injection Ht as ->.
  pose proof (open_writers_paths (map_to_list (sensor_data obs0)).*1 ∅) as Hop.
  rewrite Hopen in Hop. cbn [fst] in Hop.
  pose proof (opened_paths_nil _ Hlo) as Hlp.
  exists (opens ++ levs), r, closes.
  rewrite <- app_assoc. split; [done|].
  unfold env_results, verdicts, closed, opened, opened_paths in *.
  rewrite !omap_app, Hor, Hov, Hoc, Hoo, Hop, Hlv, Hlc, Hlo, Hlp, Hcc, !app_nil_r.
  repeat split; done.
Qed.


(** Counting on a run that reaches the end of the script. *)
Lemma script_Done_counts fuel obs0 e0 p0 tr s :
  main fuel obs0 e0 p0 = (tr, Done s) →
  opened tr = (map_to_list (sensor_data obs0)).*1 ∧
  length (env_results tr) = step s ∧
  (∀ uid, length (frames_of uid tr)
          = length (filter (shows uid) (env_results tr))).
Proof.
  intros Hrun.
  destruct (script_Done _ _ _ _ _ _ Hrun)
    as (opens & ws & levs & closes & t & Hopen & Hloop & Hclose & Hterm & ->).
  destruct (writers_spec (sensor_data obs0))
    as (opens' & ws' & Hopen' & Hws & Hperm & Hnd & Hoo & _ & Hoa & Hor & _).
  rewrite Hopen in Hopen'. injection Hopen' as <- <-.
  destruct (close_writers_spec (map_to_list ws))
    as (closes' & Hclose' & _ & Hco & Hca & Hcr & _).
  rewrite Hclose in Hclose'. injection Hclose' as <-.
  destruct (loop_actions ws fuel (init obs0 e0 p0)) as (_ & Hlo & _).
  destruct (writers_keyed _ _ Hws) as [Hkey _].
  pose proof (loop_Done ws fuel (init obs0 e0 p0) s Hkey) as HD.
  rewrite Hloop in HD, Hlo. simpl in HD, Hlo.
  destruct (HD eq_refl) as (Hstep & _ & _ & _ & _ & Hframes).
  set (v := Print (if t then MsgSuccess else MsgFailure)).
  assert (Ho : opened (opens ++ levs ++ v :: closes)
               = (map_to_list (sensor_data obs0)).*1).
  { change (v :: closes) with ([v] ++ closes). unfold opened in *.
    rewrite !omap_app, Hoo, Hlo, Hco. simpl. by rewrite app_nil_r. }
  assert (Hr : env_results (opens ++ levs ++ v :: closes) = env_results levs).
  { change (v :: closes) with ([v] ++ closes). unfold env_results in *.
    rewrite !omap_app, Hor, Hcr. simpl. by rewrite app_nil_r. }
  assert (Hf : ∀ w, frames_of w (opens ++ levs ++ v :: closes) = frames_of w levs).
  { intros w. change (v :: closes) with ([v] ++ closes).
    rewrite !frames_of_app, (frames_of_silent w opens Hoa),
      (frames_of_silent w closes Hca). simpl. by rewrite app_nil_r. }
  rewrite Ho, Hr. split; [done|]. split; [simpl in Hstep; lia|].
  intros uid. by rewrite Hf, Hframes.
Qed.

(** A run that reaches the end of the script has made a step. *)
Lemma script_Done_steps fuel obs0 e0 p0 tr s :
  main fuel obs0 e0 p0 = (tr, Done s) → 1 ≤ step s.
Proof.
  intros Hrun.
  destruct (script_Done _ _ _ _ _ _ Hrun)
    as (opens & ws & levs & closes & t & Hopen & Hloop & _).
  destruct (writers_spec (sensor_data obs0)) as (opens' & ws' & Hopen' & Hws & _).
  rewrite Hopen in Hopen'. injection Hopen' as <- <-.
  destruct (writers_keyed _ _ Hws) as [Hkey _].
  pose proof (loop_Done ws fuel (init obs0 e0 p0) s Hkey) as HD.
  rewrite Hloop in HD. simpl in HD.
  destruct (HD eq_refl) as (Hstep & _ & _ & _ & Hne & _).
  specialize (Hne eq_refl). destruct (env_results levs); [done|].
  simpl in Hstep. lia.
Qed.


Lemma env_results_elem evs (a : action7) (r : step_result) :
  EnvStep a r ∈ evs → r ∈ env_results evs.
Proof.
  intros H. unfold env_results. apply list_elem_of_omap. by exists (EnvStep a r).
Qed.

Lemma frame_error_cases ws (item : string * camera_data) (e : exn) :
  frame_error ws item = Some e →
  (e = IndexError ∧ rgb item.2 = []) ∨ (e = KeyError item.1 ∧ ws !! item.1 = None).
Proof.
  unfold frame_error, frame_of, index0_first3.
  destruct (rgb item.2) as [|im rest]; simpl.
  - intros [= <-]. by left.
  - destruct (ws !! item.1); [done|]. intros [= <-]. by right.
Qed.



Lemma policy_inputs_elem evs (b : gmap string batch_value) (out : list (list Q)) :
  SelectAction b out ∈ evs → b ∈ policy_inputs evs.
Proof.
  intros H. unfold policy_inputs. apply list_elem_of_omap.
  by exists (SelectAction b out).
Qed.

(** The policy is queried with the batch built from the current observation,
    before [env.step] is called in that pass. *)
Lemma iteration_batch ws s pre b out post :
  (body ws s).1 = pre ++ SelectAction b out :: post →
  env_results pre = [] ∧ batch_of convert_7_to_6 (raw_observation s) b.
Proof.
  destruct (iteration_cases ws s) as [(k & _ & ->)|H]; simpl.
  { intros Heq. destruct pre as [|? [|? ?]]; discriminate. }
  destruct H as (top & side & wrist & batch & o & p' & r & e' & fevs & fout
                 & Ht & Hs & Hw & -> & _ & _ & Happ & ->).
  cbn [fst]. intros Heq.
  apply app_eq_cons_split in Heq as [(post1 & Heq & _)|(pre2 & -> & Heq)].
  - destruct pre as [|x1 [|x2 [|x3 [|x4 [|x5 [|x6 pre]]]]]]; simplify_eq/=.
    split; [done|]. by exists top, side, wrist.
  - exfalso.
    destruct (append_frames_log ws (map_to_list (sensor_data (sr_obs r))))
      as (_ & _ & _ & _ & Hpi & _).
    rewrite Happ in Hpi. simpl in Hpi.
    assert (b ∈ policy_inputs fevs) as Hin.
    { apply (policy_inputs_elem _ b out). rewrite Heq. apply elem_of_app. right. by left. }
    rewrite Hpi in Hin. by apply elem_of_nil in Hin.
Qed.

Lemma loop_batch ws fuel s pre b out post :
  (loop fuel ws s).1 = pre ++ SelectAction b out :: post →
  batch_of convert_7_to_6
    (from_option sr_obs (raw_observation s) (last (env_results pre))) b.
Proof.
  revert pre b out post.
  apply (while_not_done_ind ws (λ s evs _, ∀ pre b out post,
    evs = pre ++ SelectAction b out :: post →
    batch_of convert_7_to_6
      (from_option sr_obs (raw_observation s) (last (env_results pre))) b)).
  - intros s0 _ pre b out post H. by destruct pre.
  - intros s0 _ pre b out post H. by destruct pre.
  - intros s0 evs e _ Hb pre b out post Heq.
    destruct (iteration_batch ws s0 pre b out post) as [-> Hbatch]; [|done].
    by rewrite Hb.
  - intros s0 evs s1 evs' o _ Hb IH pre b out post Heq.
    apply app_eq_cons_split in Heq as [(post1 & Heq & _)|(pre2 & -> & Heq)].
    + destruct (iteration_batch ws s0 pre b out post1) as [-> Hbatch]; [|done].
      by rewrite Hb.
    + specialize (IH _ _ _ _ Heq).
      destruct (iteration_Done ws s0 evs s1 Hb) as (r & Hr & _ & _ & _ & _ & Hobs & _).
      unfold env_results in *. rewrite omap_app, Hr, last_app.
      rewrite Hobs in IH. by destruct (last _).
Qed.

Lemma script_batch fuel obs0 e0 p0 pre b out post :
  (main fuel obs0 e0 p0).1 = pre ++ SelectAction b out :: post →
  batch_of convert_7_to_6 (from_option sr_obs obs0 (last (env_results pre))) b.
Proof.
  destruct (script_log fuel obs0 e0 p0)
    as (opens & ws & tail & Hopen & -> & _ & _ & Htp & _).
  destruct (writers_spec (sensor_data obs0))
    as (opens' & ws' & Hopen' & _ & _ & _ & _ & _ & _ & Hor & _ & Hop & _).
  rewrite Hopen in Hopen'. injection Hopen' as <- <-.
  intros Heq.
  apply app_eq_cons_split in Heq as [(post1 & Heq & _)|(pre2 & -> & Heq)].
  { exfalso. assert (b ∈ policy_inputs opens) as Hin.
    { apply (policy_inputs_elem _ b out). rewrite Heq. apply elem_of_app. right. by left. }
    rewrite Hop in Hin. by apply elem_of_nil in Hin. }
  apply app_eq_cons_split in Heq as [(post1 & Heq & _)|(pre3 & -> & Heq)].
  - apply loop_batch in Heq. simpl in Heq.
    unfold env_results in *. by rewrite omap_app, Hor.
  - exfalso. assert (b ∈ policy_inputs tail) as Hin.
    { apply (policy_inputs_elem _ b out). rewrite Heq. apply elem_of_app. right. by left. }
    rewrite Htp in Hin. by apply elem_of_nil in Hin.
Qed.

(** C6, as amended. Whenever the policy is queried, its input is a mapping
    with exactly the state key, the three image keys and the task key.  The
    task is the fixed instruction string.  The state is the float32 tensor
    on the device holding the 6-component pose computed by [convert_7_to_6]
    from the current observation, with a batch axis added and no rescaling.
    Each image is a float32 tensor on the device, channel first, each entry
    being the observation's entry divided by 255, hence in [0,1] when the
    observation's entries are in [0,255]. *)
Theorem policy_input_contract fuel obs0 e0 p0 pre b out post :
  (main fuel obs0 e0 p0).1 = pre ++ SelectAction b out :: post →
  let obs := from_option sr_obs obs0 (last (env_results pre)) in
  ∃ top side wrist,
    sensor_data obs !! "top_camera" = Some top ∧
    sensor_data obs !! "side_camera" = Some side ∧
    sensor_data obs !! "wrist_camera" = Some wrist ∧
    dom b = {[ OBS_STATE; "observation.image2"; "observation.image";
               "observation.image3"; "task" ]} ∧
    b !! "task" = Some (BText "Pick up the red cube.") ∧
    b !! OBS_STATE = Some (BState (Tensor Cuda [convert_7_to_6 (tcp_pose obs)])) ∧
    ∀ key im,
      (key, im) ∈ [("observation.image2", rgb top); ("observation.image", rgb wrist);
                   ("observation.image3", rgb side)] →
      ∃ t, b !! key = Some (BImage t) ∧
           t_device t = Cuda ∧
           (Forall4 pixel_range im → Forall4 in_unit (t_data t)) ∧
           (∀ n c i j,
              (c < channels (nth n im []))%nat →
              (j < length (nth i (nth n im []) []))%nat →
              at4 0%Q (t_data t) n c i j
              = (inject_Z (at4 0%Z im n i j c) / 255.0)%Q).
Proof.
  intros Heq obs. apply script_batch in Heq.
  destruct Heq as (top & side & wrist & Ht & Hs & Hw & ->).
  fold obs in Ht, Hs, Hw |- *.
  exists top, side, wrist.
  destruct (make_batch_lookup (prepare_state (convert_7_to_6 (tcp_pose obs)))
              (prepare_image (rgb top)) (prepare_image (rgb side))
              (prepare_image (rgb wrist))) as (Hdom & Hst & Htop & Hwrist & Hside & Htask).
  repeat (split; [done|]).
  intros key im Hin.
  repeat (apply elem_of_cons in Hin as [[= -> ->]|Hin];
          [eexists; split; [eassumption|]; split; [done|]; split;
           [apply prepare_image_in_unit|apply prepare_image_entry]|]).
  by apply elem_of_nil in Hin.
Qed.

(** ** The action sent to the environment *)

Lemma length_env_actions evs : length (env_actions evs) = length (env_results evs).
Proof. induction evs as [|[] evs IH]; simpl; try done. by rewrite IH. Qed.

Lemma around_call_stable (l hd : list ev) (x : ev) (tl l' : list ev) :
  around_call convert_6_to_7 select_action hd x tl →
  around_call convert_6_to_7 select_action (l ++ hd) x (tl ++ l').
Proof.
  destruct x as [| | | |b out|a r]; simpl; try done.
  - intros (n & r & tl' & ->). by exists n, r, (tl' ++ l').
  - intros (hd' & b & out & n & p & -> & Hout & Ha).
    exists (l ++ hd'), b, out, n, p. by rewrite app_assoc.
Qed.

(** In the loop body, [env.step] comes right after the policy query and the
    line that prints the action, and the query is followed by them. *)
Lemma iteration_calls ws s (hd : list ev) (x : ev) (tl : list ev) :
  (body ws s).1 = hd ++ x :: tl →
  around_call convert_6_to_7 select_action hd x tl.
Proof.
  destruct (iteration_cases ws s) as [(k & _ & ->)|H]; cbn [fst].
  { intros Heq. destruct hd as [|? [|? ?]]; simplify_eq/=. done. }
  destruct H as (top & side & wrist & batch & out & p' & r & e' & fevs & fout
                 & _ & _ & _ & _ & Hsel & _ & Happ & ->).
  cbn [fst]. intros Heq.
  destruct (append_frames_spec ws (map_to_list (sensor_data (sr_obs r))))
    as (fevs' & fout' & Happ' & _ & Hev & _).
  rewrite Happ in Happ'. injection Happ' as <- <-.
  apply app_eq_cons_split in Heq as [(tl1 & Heq & ->)|(hd2 & -> & Heq)].
  - destruct hd as [|x1 [|x2 [|x3 [|x4 [|x5 [|x6 hd]]]]]]; simplify_eq/=; try done.
    + eexists _, _, _. reflexivity.
    + eexists [_], batch, out, (step s), (policy s). rewrite Hsel. done.
  - assert (x ∈ fevs) as Hin.
    { rewrite Heq. apply elem_of_app. right. by left. }
    rewrite Hev in Hin. apply list_elem_of_fmap in Hin as (pf & -> & _). done.
Qed.

Lemma script_calls fuel obs0 e0 p0 (hd : list ev) (x : ev) (tl : list ev) :
  (main fuel obs0 e0 p0).1 = hd ++ x :: tl →
  around_call convert_6_to_7 select_action hd x tl.
Proof.
  destruct (script_log fuel obs0 e0 p0)
    as (opens & ws & tail & Hopen & -> & Htr & _ & Htp & _).
  destruct (writers_spec (sensor_data obs0))
    as (opens' & ws' & Hopen' & _ & _ & _ & _ & _ & _ & Hor & _ & Hop & _).
  rewrite Hopen in Hopen'. injection Hopen' as <- <-.
  assert (∀ evs : list ev, env_results evs = [] → policy_inputs evs = [] →
            ∀ hd x tl, evs = hd ++ x :: tl →
                       around_call convert_6_to_7 select_action hd x tl) as Hsilent.
  { intros evs Hr Hp hd' x' tl' Heq.
    assert (x' ∈ evs) as Hin by (rewrite Heq; apply elem_of_app; right; by left).
    destruct x' as [| | | |b out|a r]; try done.
    - apply policy_inputs_elem in Hin. rewrite Hp in Hin. by apply elem_of_nil in Hin.
    - apply env_results_elem in Hin. rewrite Hr in Hin. by apply elem_of_nil in Hin. }
  revert hd x tl.
  apply (local_app (around_call convert_6_to_7 select_action));
    [apply around_call_stable|by apply Hsilent|].
  apply (local_app (around_call convert_6_to_7 select_action));
    [apply around_call_stable| |by apply Hsilent].
  apply (while_not_done_log ws (λ evs, ∀ hd x tl, evs = hd ++ x :: tl →
           around_call convert_6_to_7 select_action hd x tl)).
  - intros hd x tl H. by destruct hd.
  - intros e1 e2 H1 H2.
    by apply (local_app (around_call convert_6_to_7 select_action));
      [apply around_call_stable|..].
  - intros s. apply iteration_calls.
Qed.

(** The first pass sends the action computed from the initial observation. *)
Lemma script_first_action fuel obs0 e0 p0 :
  first_missing (sensor_data obs0) = None →
  ∃ b, batch_of convert_7_to_6 obs0 b ∧
       head (env_actions (main (S fuel) obs0 e0 p0).1)
       = Some (convert_6_to_7 (scale_action (select_action p0 b).1)).
Proof.
  intros Hm.
  destruct (script_log (S fuel) obs0 e0 p0)
    as (opens & ws & tail & Hopen & -> & _).
  destruct (writers_spec (sensor_data obs0))
    as (opens' & ws' & Hopen' & _ & _ & _ & _ & _ & _ & _ & Hoa & _).
  rewrite Hopen in Hopen'. injection Hopen' as <- <-.
  unfold first_missing in Hm.
  destruct (sensor_data obs0 !! "top_camera") as [top|] eqn:Ht; [|done].
  destruct (sensor_data obs0 !! "side_camera") as [side|] eqn:Hs; [|done].
  destruct (sensor_data obs0 !! "wrist_camera") as [wrist|] eqn:Hw; [|done].
  eexists. split; [by exists top, side, wrist|].
  cbn [while_not_done init done]. rewrite M_bind_log, iteration_unfold.
  cbv zeta. cbn [init raw_observation policy env step]. rewrite Ht, Hs, Hw.
  cbn [fst snd]. unfold env_actions in *. rewrite !omap_app, Hoa. done.
Qed.

(** C1. In every run of the script, whatever its outcome, the actions handed
    to [env.step] are, call by call, the outputs of [policy.select_action]
    with the two in-place column products applied and then passed through
    [convert_6_to_7], and nothing else: every [env.step] call comes right
    after the policy query whose output it sends and after the line that
    prints the action, and every policy query is followed by that line and
    by the [env.step] call with its scaled and converted output.  Actions
    are sent: when the initial observation has the three cameras that the
    loop body reads, the first action sent is the one computed from the
    initial observation, and a run that reaches the end of the script has
    sent one action per loop step, at least one.  On a 6-component row the
    two products multiply components 0 to 2 by 0.05 and components 3 to 5 by
    0.2. *)
Theorem action_is_scaled_policy_output fuel obs0 e0 p0 :
  let run := main fuel obs0 e0 p0 in
  let send := λ out, convert_6_to_7 (scale_action out) in
  env_actions run.1 = send <$> policy_outputs run.1 ∧
  (∀ pre a r post,
     run.1 = pre ++ EnvStep a r :: post →
     ∃ pre' b out n p,
       pre = pre' ++ [SelectAction b out; Print (MsgAction n a)] ∧
       out = (select_action p b).1 ∧ a = send out) ∧
  (∀ pre b out post,
     run.1 = pre ++ SelectAction b out :: post →
     ∃ n r post',
       post = Print (MsgAction n (send out)) :: EnvStep (send out) r :: post') ∧
  (first_missing (sensor_data obs0) = None → fuel ≠ 0 →
   ∃ b, batch_of convert_7_to_6 obs0 b ∧
        head (env_actions run.1) = Some (send (select_action p0 b).1)) ∧
  (∀ s, run.2 = Done s → length (env_actions run.1) = step s ∧ 1 ≤ step s) ∧
  ∀ (a0 a1 a2 a3 a4 a5 : Q) (rest : list (list Q)),
    scale_action ([a0; a1; a2; a3; a4; a5] :: rest)
    = [a0 * 0.05; a1 * 0.05; a2 * 0.05; a3 * 0.2; a4 * 0.2; a5 * 0.2]%Q
        :: scale_action rest.
Proof.
  intros run send. split.
  { destruct (script_log fuel obs0 e0 p0)
      as (opens & ws & tail & Hopen & Hlog & _ & Hta & _ & Htp & _).
    destruct (writers_spec (sensor_data obs0))
      as (opens' & ws' & Hopen' & _ & _ & _ & _ & _ & _ & _ & Hoa & _ & Hop & _).
    rewrite Hopen in Hopen'. injection Hopen' as <- <-.
    destruct (loop_actions ws fuel (init obs0 e0 p0)) as (Hl & _).
    unfold run. rewrite Hlog. unfold env_actions, policy_outputs in *.
    rewrite !omap_app, !fmap_app, Hoa, Hop, Hta, Htp, Hl. done. }
  split.
  { intros pre a r post Heq. exact (script_calls _ _ _ _ _ _ _ Heq). }
  split.
  { intros pre b out post Heq. exact (script_calls _ _ _ _ _ _ _ Heq). }
  split.
  { intros Hm Hfuel. unfold run. destruct fuel as [|fuel]; [done|].
    by apply script_first_action. }
  split; [|done].
  intros s Hs. destruct (main fuel obs0 e0 p0) as [tr out] eqn:Hrun.
  unfold run in *. cbn [fst snd] in *. subst out.
  destruct (script_Done_counts _ _ _ _ _ _ Hrun) as (_ & Hstep & _).
  rewrite length_env_actions. split; [done|].
  by apply (script_Done_steps _ _ _ _ _ _ Hrun).
Qed.

(** ** Further properties of the script *)

Lemma omap_none {A B} (f : A → option B) (l : list A) :
  Forall (λ x, f x = None) l → omap f l = [].
Proof. induction 1 as [|x l Hx _ IH]; [done|]. cbn [omap list_omap]. by rewrite Hx. Qed.

Lemma open_writers_events uids ws :
  Forall (λ e : ev, match e with
                    | GetWriter _ _ f => f = fps env_metadata
                    | Print (MsgOpened _ _) => True
                    | _ => False
                    end) (open_writers env_metadata uids ws).1.
Proof.
  revert ws. induction uids as [|uid uids IH]; intros ws; [constructor|].
  simpl. specialize (IH (<[uid := uid]> ws)).
  destruct (open_writers _ _ _) as [evs out]. simpl in *.
  repeat constructor. done.
Qed.

Lemma close_writers_events (items : list (string * string)) :
  Forall (λ e : ev, match e with
                    | CloseWriter _ | Print (MsgSaved _ _) => True
                    | _ => False
                    end) (close_writers items).1.
Proof.
  induction items as [|[uid w] items IH]; [constructor|].
  simpl. destruct (close_writers items) as [evs out]. simpl in *.
  repeat constructor. done.
Qed.

(** A reader of the log that ignores the opening of writers, their closing
    and the verdict sees the rollout loop only. *)
Lemma script_omap {B} (f : ev → option B) fuel obs0 e0 p0 opens ws :
  open_writers env_metadata (map_to_list (sensor_data obs0)).*1 ∅ = (opens, Done ws) →
  (∀ w p n, f (GetWriter w p n) = None) →
  (∀ u p, f (Print (MsgOpened u p)) = None) →
  (∀ u p, f (Print (MsgSaved u p)) = None) →
  (∀ w, f (CloseWriter w) = None) →
  f (Print MsgSuccess) = None → f (Print MsgFailure) = None →
  omap f (main fuel obs0 e0 p0).1 = omap f (loop fuel ws (init obs0 e0 p0)).1.
Proof.
  intros Hopen Hg Ho Hs Hc Hsu Hfa.
  assert (omap f opens = []) as Hopens.
  { apply omap_none. pose proof (open_writers_events (map_to_list (sensor_data obs0)).*1 ∅) as H.
    rewrite Hopen in H. simpl in H. eapply Forall_impl; [exact H|].
    intros [[]| | | | |]; simpl; try done; auto. }
  assert (omap f (close_writers (action7 := action7) (map_to_list ws)).1 = []) as Hcloses.
  { apply omap_none. eapply Forall_impl; [apply close_writers_events|].
    intros [[]| | | | |]; simpl; try done; auto. }
  rewrite (script_unfold fuel obs0 e0 p0 opens ws Hopen).
  destruct (loop fuel ws (init obs0 e0 p0)) as [levs [s| e |]]; cbn [fst snd].
  - destruct (terminated s) as [t|]; cbn [fst snd].
    + change (Print (if t then MsgSuccess else MsgFailure) :: ?l)
        with ([Print (if t then MsgSuccess else MsgFailure)] ++ l).
      rewrite !omap_app, Hopens, Hcloses. cbn [omap list_omap].
      destruct t; rewrite ?Hsu, ?Hfa; simpl; by rewrite app_nil_r.
    + by rewrite omap_app, Hopens.
  - by rewrite omap_app, Hopens.
  - by rewrite omap_app, Hopens.
Qed.

Lemma script_env_results fuel obs0 e0 p0 opens ws :
  open_writers env_metadata (map_to_list (sensor_data obs0)).*1 ∅ = (opens, Done ws) →
  env_results (main fuel obs0 e0 p0).1 = env_results (loop fuel ws (init obs0 e0 p0)).1.
Proof. intros H. by apply (script_omap _ fuel obs0 e0 p0 opens ws H). Qed.

Lemma first_missing_named (sd : gmap string camera_data) (k : string) :
  first_missing sd = Some k →
  k ∈ ["top_camera"; "side_camera"; "wrist_camera"] ∧ sd !! k = None.
Proof.
  unfold first_missing.
  destruct (sd !! "top_camera") eqn:Ht; [|intros [= <-]; split; [set_solver|done]].
  destruct (sd !! "side_camera") eqn:Hs; [|intros [= <-]; split; [set_solver|done]].
  destruct (sd !! "wrist_camera") eqn:Hw; [done|intros [= <-]; split; [set_solver|done]].
Qed.

(** A pass whose observation lacks a named camera stops after printing the
    pose, with the [KeyError] of the first camera missing. *)
Lemma iteration_missing ws s k :
  first_missing (sensor_data (raw_observation s)) = Some k →
  body ws s = ([Print (MsgPose (step s) (tcp_pose (raw_observation s)))],
               Raised (KeyError k)).
Proof.
  intros H. rewrite iteration_unfold. cbv zeta. unfold first_missing in H.
  destruct (sensor_data (raw_observation s) !! "top_camera"); [|by injection H as <-].
  destruct (sensor_data (raw_observation s) !! "side_camera"); [|by injection H as <-].
  destruct (sensor_data (raw_observation s) !! "wrist_camera"); [done|by injection H as <-].
Qed.

(** A pass whose observation has the three named cameras queries the
    policy. *)
Lemma iteration_queries ws s :
  first_missing (sensor_data (raw_observation s)) = None →
  policy_inputs (body ws s).1 ≠ [].
Proof.
  intros H. rewrite iteration_unfold. cbv zeta. unfold first_missing in H.
  destruct (sensor_data (raw_observation s) !! "top_camera"); [|done].
  destruct (sensor_data (raw_observation s) !! "side_camera"); [|done].
  destruct (sensor_data (raw_observation s) !! "wrist_camera"); [|done].
  done.
Qed.

(** The errors a pass can end in: the first named camera missing from the
    current observation, or what appending the frames of the observation
    just returned raises. *)
Lemma iteration_errors ws s e :
  (body ws s).2 = Raised e →
  (∃ k, first_missing (sensor_data (raw_observation s)) = Some k ∧ e = KeyError k) ∨
  (first_missing (sensor_data (raw_observation s)) = None ∧
   ∃ r item, env_results (body ws s).1 = [r] ∧
             item ∈ map_to_list (sensor_data (sr_obs r)) ∧
             frame_error ws item = Some e).
Proof.
  intros He.
  destruct (first_missing (sensor_data (raw_observation s))) as [k|] eqn:Hm.
  { left. exists k. split; [done|]. rewrite (iteration_missing ws s k Hm) in He.
    by injection He as <-. }
  right. split; [done|].
  pose proof (iteration_queries ws s Hm) as Hq.
  destruct (iteration_cases ws s) as [(k & _ & Hk)|H].
  { rewrite Hk in Hq. done. }
  destruct H as (top & side & wrist & batch & out & p' & r & e' & fevs & fout
                 & _ & _ & _ & _ & _ & _ & Happ & Hk).
  rewrite Hk in He |- *. cbn [fst snd] in *.
  destruct (append_frames_spec ws (map_to_list (sensor_data (sr_obs r))))
    as (fevs' & fout' & Happ' & _ & Hev & _ & _ & Herr).
  rewrite Happ in Happ'. injection Happ' as <- <-.
  destruct (only_appends fevs Hev) as (_ & _ & Hr & _).
  destruct fout as [[]|e0|]; try discriminate. injection He as ->.
  destruct (Herr e eq_refl) as (item & Hitem & Hfe).
  exists r, item. split; [|done]. unfold env_results in *. by rewrite omap_app, Hr.
Qed.

Lemma loop_errors ws fuel s e :
  (loop fuel ws s).2 = Raised e →
  e = IndexError ∨
  ∃ k, e = KeyError k ∧
       (k ∈ ["top_camera"; "side_camera"; "wrist_camera"] ∨ ws !! k = None).
Proof.
  revert e.
  apply (while_not_done_ind ws (λ _ _ out, ∀ e, out = Raised e →
    e = IndexError ∨
    ∃ k, e = KeyError k ∧
         (k ∈ ["top_camera"; "side_camera"; "wrist_camera"] ∨ ws !! k = None)));
    try done.
  intros s0 evs e _ Hb e' [= <-].
  destruct (iteration_errors ws s0 e) as [(k & Hk & ->)|(_ & r & item & _ & _ & Hfe)].
  { by rewrite Hb. }
  - right. exists k. split; [done|]. left. by apply first_missing_named in Hk as [? _].
  - apply frame_error_cases in Hfe as [[-> _]|[-> Hnone]]; [by left|].
    right. exists item.1. split; [done|]. by right.
Qed.

(** Every step but the last returned both flags false; the step after which
    the loop is left returned one of them true. *)
Lemma loop_flags ws fuel s :
  let lp := loop fuel ws s in
  (done s = true → lp.1 = [] ∧ lp.2 = Done s) ∧
  (∀ hd r tl, env_results lp.1 = hd ++ r :: tl → tl ≠ [] →
              sr_terminated r = false ∧ sr_truncated r = false) ∧
  (∀ s', lp.2 = Done s' → done s = false →
         ∃ r, last (env_results lp.1) = Some r ∧
              sr_terminated r || sr_truncated r = true).
Proof.
  cbv zeta.
  apply (while_not_done_ind ws (λ s evs out,
    (done s = true → evs = [] ∧ out = Done s) ∧
    (∀ hd r tl, env_results evs = hd ++ r :: tl → tl ≠ [] →
                sr_terminated r = false ∧ sr_truncated r = false) ∧
    (∀ s', out = Done s' → done s = false →
           ∃ r, last (env_results evs) = Some r ∧
                sr_terminated r || sr_truncated r = true))).
  - intros s0 Hd. split; [done|]. split.
    + intros hd r tl H. by destruct hd.
    + intros s' _ Hd'. congruence.
  - intros s0 Hd. split; [congruence|]. split; [|done].
    intros hd r tl H. by destruct hd.
  - intros s0 evs e Hd Hb. split; [congruence|]. split; [|done].
    intros hd r tl H Htl.
    assert (length (env_results evs) ≤ 1) as Hlen.
    { destruct (iteration_cases ws s0) as [(k & _ & Hk)|H'].
      - rewrite Hk in Hb. injection Hb as <- _. simpl. lia.
      - destruct H' as (top & side & wrist & batch & out & p' & r0 & e' & fevs & fout
                        & _ & _ & _ & _ & _ & _ & Happ & Hk).
        rewrite Hk in Hb.
        destruct (append_frames_log ws (map_to_list (sensor_data (sr_obs r0))))
          as (_ & _ & Hr & _).
        rewrite Happ in Hr. cbn [fst] in Hr.
        match type of Hb with (?l, _) = _ => assert (evs = l) as -> by congruence end.
        unfold env_results in *. rewrite omap_app, Hr. simpl. lia. }
    rewrite H, length_app in Hlen. simpl in Hlen. destruct tl; [done|simpl in Hlen; lia].
  - intros s0 evs s1 evs' out Hd Hb (Hexit & Hmid & Hlast).
    destruct (iteration_Done ws s0 evs s1 Hb) as (r0 & Hr & _ & _ & _ & Hdone & _).
    assert (Her : env_results (evs ++ evs') = r0 :: env_results evs').
    { unfold env_results in *. by rewrite omap_app, Hr. }
    rewrite Her. split; [congruence|]. split.
    + intros hd r tl H Htl. destruct hd as [|r1 hd]; simpl in H.
      * injection H as <- Htl'.
        destruct (done s1) eqn:Hd1.
        { destruct (Hexit eq_refl) as [-> _]. by rewrite <- Htl' in Htl. }
        rewrite Hd, orb_false_r in Hdone. symmetry in Hdone.
        by apply orb_false_elim in Hdone.
      * injection H as _ H. by apply (Hmid hd r tl).
    + intros s' -> _. destruct (done s1) eqn:Hd1.
      * destruct (Hexit eq_refl) as [-> _]. exists r0. split; [done|].
        rewrite Hd, orb_false_r in Hdone. done.
      * destruct (Hlast s' eq_refl eq_refl) as (r & Hl & Hf). exists r. split; [|done].
        change (r0 :: env_results evs') with ([r0] ++ env_results evs').
        by rewrite last_app, Hl.
Qed.

(** How the script's outcome follows from the loop's. *)
Lemma script_outcome fuel obs0 e0 p0 :
  ∃ opens ws,
    open_writers env_metadata (map_to_list (sensor_data obs0)).*1 ∅ = (opens, Done ws) ∧
    (∀ uid, ws !! uid = if decide (uid ∈ dom (sensor_data obs0))
                        then Some uid else None) ∧
    let lp := loop fuel ws (init obs0 e0 p0) in
    match lp.2 with
    | Done s => (main fuel obs0 e0 p0).2 = Done s ∧ is_Some (terminated s) ∧ 1 ≤ step s
    | Raised e => main fuel obs0 e0 p0 = (opens ++ lp.1, Raised e)
    | OutOfFuel => main fuel obs0 e0 p0 = (opens ++ lp.1, OutOfFuel)
    end.
Proof.
  destruct (writers_spec (sensor_data obs0)) as (opens & ws & Hopen & Hws & _).
  exists opens, ws. split; [done|]. split; [done|]. intros lp.
  rewrite (script_unfold fuel obs0 e0 p0 opens ws Hopen). fold lp.
  destruct (writers_keyed _ _ Hws) as [Hkey _].
  pose proof (loop_Done ws fuel (init obs0 e0 p0)) as HD. fold lp in HD.
  destruct lp as [levs [s| e |]]; cbn [fst snd] in *; try done.
  destruct (HD s Hkey eq_refl) as (Hstep & _ & _ & Hterm & Hne & _).
  specialize (Hne eq_refl).
  destruct (last (env_results levs)) as [r|] eqn:Hlast.
  2:{ by apply last_None in Hlast. }
  simpl in Hterm. rewrite Hterm. split; [done|]. split; [eauto|].
  destruct (env_results levs); [done|]. simpl in Hstep. lia.
Qed.

(** X2. [env.step] is never called after a step that returned [terminated]
    or [truncated]: every step but the last returned both flags false, and a
    run that reaches the end of the script has left the loop on a step that
    returned one of them true. *)
Theorem no_step_after_terminated_or_truncated fuel obs0 e0 p0 :
  let run := main fuel obs0 e0 p0 in
  (∀ hd r tl, env_results run.1 = hd ++ r :: tl → tl ≠ [] →
              sr_terminated r = false ∧ sr_truncated r = false) ∧
  (∀ s, run.2 = Done s →
        ∃ r, last (env_results run.1) = Some r ∧
             sr_terminated r || sr_truncated r = true).
Proof.
  intros run.
  destruct (script_outcome fuel obs0 e0 p0) as (opens & ws & Hopen & Hws & Hout).
  cbv zeta in Hout. fold run in Hout.
  pose proof (script_env_results fuel obs0 e0 p0 opens ws Hopen) as Hres. fold run in Hres.
  destruct (loop_flags ws fuel (init obs0 e0 p0)) as (_ & Hmid & Hlast).
  rewrite Hres. split; [exact Hmid|].
  intros s Hs.
  destruct (loop fuel ws (init obs0 e0 p0)) as [levs [s1| e1 |]]; cbn [fst snd] in *.
  - by apply (Hlast s1).
  - rewrite Hout in Hs. discriminate.
  - rewrite Hout in Hs. discriminate.
Qed.

(** X4. A run that ends in an error has opened a writer for every camera of
    the initial observation, each on the path of its camera, has closed none
    of them and has printed no verdict. *)
Theorem abort_leaves_writers_open fuel obs0 e0 p0 e :
  let run := main fuel obs0 e0 p0 in
  run.2 = Raised e →
  opened run.1 = (map_to_list (sensor_data obs0)).*1 ∧
  opened_paths run.1 = video_path <$> (map_to_list (sensor_data obs0)).*1 ∧
  closed run.1 = [] ∧ verdicts run.1 = [].
Proof.
  intros run He.
  destruct (script_opened fuel obs0 e0 p0) as (Hopened & Hpaths).
  fold run in Hopened, Hpaths. split; [done|]. split; [done|].
  destruct (script_outcome fuel obs0 e0 p0) as (opens & ws & Hopen & Hws & Hout).
  cbv zeta in Hout. fold run in Hout, He.
  destruct (writers_spec (sensor_data obs0))
    as (opens' & ws' & Hopen' & _ & _ & _ & Hoo & Hoc & _ & _ & _ & _ & _ & Hov).
  rewrite Hopen in Hopen'. injection Hopen' as <- <-.
  destruct (loop_actions ws fuel (init obs0 e0 p0)) as (_ & Hlo & Hlc & Hlv).
  destruct (loop fuel ws (init obs0 e0 p0)) as [levs [s1| e1 |]]; cbn [fst snd] in *.
  - destruct Hout as [Hout _]. congruence.
  - rewrite Hout. cbn [fst]. unfold closed, verdicts in *.
    by rewrite !omap_app, Hoc, Hov, Hlc, Hlv.
  - rewrite Hout in He. discriminate.
Qed.


(** What a completed pass leaves in the variables. *)
Lemma iteration_state ws s evs s' :
  body ws s = (evs, Done s') →
  ∃ r, env_results evs = [r] ∧
       rewards s' = rewards s ++ [sr_reward r] ∧
       truncated s' = Some (sr_truncated r) ∧
       raw_observation s' = sr_obs r.
Proof.
  intros Hb. destruct (iteration_cases ws s) as [(k & _ & Hk)|H].
  { rewrite Hk in Hb. discriminate. }
  destruct H as (top & side & wrist & batch & out & p' & r & e' & fevs & fout
                 & _ & _ & _ & _ & _ & _ & Happ & Hk).
  rewrite Hk in Hb.
  destruct (append_frames_log ws (map_to_list (sensor_data (sr_obs r))))
    as (_ & _ & Hr & _).
  rewrite Happ in Hr. cbn [fst] in Hr.
  destruct fout as [[]| |]; try discriminate.
  match type of Hb with (?l, Done ?x) = _ =>
    assert (evs = l) as -> by congruence; assert (s' = x) as -> by congruence
  end.
  exists r. unfold env_results in *. rewrite omap_app, Hr. done.
Qed.

Lemma loop_state ws fuel s s' :
  (loop fuel ws s).2 = Done s' →
  let res := env_results (loop fuel ws s).1 in
  rewards s' = rewards s ++ (sr_reward <$> res) ∧
  raw_observation s' = from_option sr_obs (raw_observation s) (last res) ∧
  truncated s' = from_option (λ r, Some (sr_truncated r)) (truncated s) (last res).
Proof.
  revert s'.
  apply (while_not_done_ind ws (λ s evs out, ∀ s', out = Done s' →
    rewards s' = rewards s ++ (sr_reward <$> env_results evs) ∧
    raw_observation s'
      = from_option sr_obs (raw_observation s) (last (env_results evs)) ∧
    truncated s'
      = from_option (λ r, Some (sr_truncated r)) (truncated s) (last (env_results evs))));
    try done.
  - intros s0 _ s' [= <-]. simpl. by rewrite app_nil_r.
  - intros s0 evs s1 evs' out _ Hb IH s' ->.
    destruct (IH s' eq_refl) as (Hrw & Hobs & Htr).
    destruct (iteration_state ws s0 evs s1 Hb) as (r & Hr & Hrw1 & Htr1 & Hobs1).
    assert (Her : env_results (evs ++ evs') = [r] ++ env_results evs').
    { unfold env_results in *. by rewrite omap_app, Hr. }
    rewrite Her, last_app, fmap_app, Hrw, Hrw1, Hobs, Hobs1, Htr, Htr1.
    rewrite <- app_assoc. by destruct (last (env_results evs')).
Qed.

(** X1. [if terminated:] never raises [NameError], although [terminated] is
    bound only inside the loop: [done] is false when the loop is entered, so
    a run that gets to the verdict has made at least one pass, which has
    bound [terminated] and [truncated]. *)
Theorem terminated_is_bound_at_verdict fuel obs0 e0 p0 :
  let run := main fuel obs0 e0 p0 in
  (∀ name, run.2 ≠ Raised (NameError name)) ∧
  (∀ s, run.2 = Done s →
        1 ≤ step s ∧ is_Some (terminated s) ∧ is_Some (truncated s)).
Proof.
  intros run.
  destruct (script_outcome fuel obs0 e0 p0) as (opens & ws & Hopen & Hws & Hout).
  cbv zeta in Hout. fold run in Hout.
  pose proof (loop_errors ws fuel (init obs0 e0 p0)) as Hl.
  pose proof (loop_state ws fuel (init obs0 e0 p0)) as HS.
  pose proof (loop_Done ws fuel (init obs0 e0 p0)) as HD.
  destruct (writers_keyed _ _ Hws) as [Hkey _].
  destruct (loop fuel ws (init obs0 e0 p0)) as [levs [s1| e1 |]]; cbn [fst snd] in *.
  - destruct Hout as (Hout & Ht & Hstep). split; [intros name; congruence|].
    intros s Hs. assert (s1 = s) as -> by congruence.
    split; [done|]. split; [done|].
    destruct (HS s eq_refl) as (_ & _ & Htr).
    destruct (HD s Hkey eq_refl) as (_ & _ & _ & _ & Hne & _).
    specialize (Hne eq_refl).
    destruct (last (env_results levs)) as [r|] eqn:Hlast.
    2:{ by apply last_None in Hlast. }
    rewrite Htr. simpl. eauto.
  - rewrite Hout. split; [|done]. intros name [= ->].
    destruct (Hl (NameError name) eq_refl) as [?|(k & ? & _)]; discriminate.
  - rewrite Hout. split; done.
Qed.

(** X3. On a run that reaches the end of the script, [rewards] holds the
    rewards that the [env.step] calls returned, in order, one per loop step;
    [raw_observation], [terminated] and [truncated] hold what the last call
    returned. *)
Theorem final_variables_hold_last_step fuel obs0 e0 p0 tr s :
  main fuel obs0 e0 p0 = (tr, Done s) →
  rewards s = sr_reward <$> env_results tr ∧
  length (rewards s) = step s ∧
  ∃ r, last (env_results tr) = Some r ∧
       raw_observation s = sr_obs r ∧
       terminated s = Some (sr_terminated r) ∧
       truncated s = Some (sr_truncated r).
Proof.
  intros Hrun.
  destruct (script_Done _ _ _ _ _ _ Hrun)
    as (opens & ws & levs & closes & t & Hopen & Hloop & _ & _ & _).
  pose proof (script_env_results fuel obs0 e0 p0 opens ws Hopen) as Hres.
  rewrite Hrun, Hloop in Hres. cbn [fst] in Hres.
  destruct (writers_spec (sensor_data obs0)) as (opens' & ws' & Hopen' & Hws & _).
  rewrite Hopen in Hopen'. injection Hopen' as <- <-.
  destruct (writers_keyed _ _ Hws) as [Hkey _].
  pose proof (loop_Done ws fuel (init obs0 e0 p0) s Hkey) as HD.
  pose proof (loop_state ws fuel (init obs0 e0 p0) s) as HS.
  rewrite Hloop in HD, HS. cbn [fst snd] in HD, HS.
  destruct (HD eq_refl) as (Hstep & _ & _ & Hterm & Hne & _).
  destruct (HS eq_refl) as (Hrw & Hobs & Htr).
  specialize (Hne eq_refl). rewrite Hres.
  simpl in Hrw, Hstep. split; [done|]. split.
  { by rewrite Hrw, length_fmap. }
  destruct (last (env_results levs)) as [r|] eqn:Hlast.
  2:{ by apply last_None in Hlast. }
  exists r. done.
Qed.



Lemma iteration_lines ws s :
  let evs := (body ws s).1 in
  reward_lines evs
    = (λ r, (step s, sr_reward r, sr_terminated r)) <$> env_results evs ∧
  action_lines evs = (λ a, (step s, a)) <$> env_actions evs ∧
  opened_fps evs = [].
Proof.
  destruct (iteration_cases ws s) as [(k & _ & ->)|H]; [done|].
  destruct H as (top & side & wrist & batch & out & p' & r & e' & fevs & fout
                 & _ & _ & _ & _ & _ & _ & Happ & ->).
  destruct (append_frames_spec ws (map_to_list (sensor_data (sr_obs r))))
    as (fevs' & fout' & Happ' & _ & Hev & _).
  rewrite Happ in Happ'. injection Happ' as <- <-.
  destruct (only_appends fevs Hev) as (_ & _ & Hr & Ha & _).
  assert (reward_lines fevs = [] ∧ action_lines fevs = [] ∧ opened_fps fevs = [])
    as (Hrl & Hal & Hfp).
  { rewrite Hev. generalize (appended fevs). intros l.
    repeat split; induction l as [|[w f] l IH]; simpl; done. }
  cbn [fst]. unfold reward_lines, action_lines, opened_fps, env_results, env_actions in *.
  rewrite !omap_app, Hrl, Hal, Hfp, Hr, Ha. done.
Qed.

Lemma loop_lines ws fuel s :
  let evs := (loop fuel ws s).1 in
  reward_lines evs
    = imap (λ i r, (step s + i, sr_reward r, sr_terminated r)) (env_results evs) ∧
  action_lines evs = imap (λ i a, (step s + i, a)) (env_actions evs) ∧
  opened_fps evs = [].
Proof.
  cbv zeta.
  apply (while_not_done_ind ws (λ s evs _,
    reward_lines evs
      = imap (λ i r, (step s + i, sr_reward r, sr_terminated r)) (env_results evs) ∧
    action_lines evs = imap (λ i a, (step s + i, a)) (env_actions evs) ∧
    opened_fps evs = [])); try done.
  - intros s0 evs e _ Hb.
    destruct (iteration_lines ws s0) as (Hrl & Hal & Hfp).
    pose proof (iteration_actions ws s0) as (Hact & _).
    rewrite Hb in Hrl, Hal, Hfp, Hact. cbn [fst] in *.
    rewrite Hrl, Hal. split; [|split; [|done]].
    + rewrite <- (imap_const (λ r, (step s0, sr_reward r, sr_terminated r))).
      apply imap_ext. intros i r Hi.
      destruct (iteration_cases ws s0) as [(k & _ & Hk)|H].
      { rewrite Hk in Hb. injection Hb as <- _. done. }
      destruct H as (top & side & wrist & batch & out & p' & r0 & e' & fevs & fout
                     & _ & _ & _ & _ & _ & _ & Happ & Hk).
      destruct (append_frames_log ws (map_to_list (sensor_data (sr_obs r0))))
        as (_ & _ & Hr0 & _).
      rewrite Happ in Hr0. cbn [fst] in Hr0. rewrite Hk in Hb.
      match type of Hb with (?l, _) = _ => assert (evs = l) as Hevs by congruence end.
      rewrite Hevs in Hi. unfold env_results in Hi, Hr0.
      rewrite omap_app, Hr0 in Hi. destruct i; [|done]. simpl.
      by rewrite Nat.add_0_r.
    + rewrite <- (imap_const (λ a, (step s0, a))).
      apply imap_ext. intros i a Hi.
      destruct (iteration_cases ws s0) as [(k & _ & Hk)|H].
      { rewrite Hk in Hb. injection Hb as <- _. done. }
      destruct H as (top & side & wrist & batch & out & p' & r0 & e' & fevs & fout
                     & _ & _ & _ & _ & _ & _ & Happ & Hk).
      destruct (append_frames_log ws (map_to_list (sensor_data (sr_obs r0))))
        as (_ & _ & _ & Ha0 & _).
      rewrite Happ in Ha0. cbn [fst] in Ha0. rewrite Hk in Hb.
      match type of Hb with (?l, _) = _ => assert (evs = l) as Hevs by congruence end.
      rewrite Hevs in Hi. unfold env_actions in Hi, Ha0.
      rewrite omap_app, Ha0 in Hi. destruct i; [|done]. simpl.
      by rewrite Nat.add_0_r.
  - intros s0 evs s1 evs' out _ Hb (IHr & IHa & IHf).
    destruct (iteration_lines ws s0) as (Hrl & Hal & Hfp).
    pose proof (iteration_actions ws s0) as (Hact & _).
    rewrite Hb in Hrl, Hal, Hfp, Hact. cbn [fst] in *.
    destruct (iteration_Done ws s0 evs s1 Hb) as (r & Hr & Hstep & _).
    assert (∃ a, env_actions evs = [a]) as [a Ha].
    { destruct (iteration_cases ws s0) as [(k & _ & Hk)|H].
      { rewrite Hk in Hb. discriminate. }
      destruct H as (top & side & wrist & batch & out' & p' & r0 & e' & fevs & fout
                     & _ & _ & _ & _ & _ & _ & Happ & Hk).
      destruct (append_frames_log ws (map_to_list (sensor_data (sr_obs r0))))
        as (_ & _ & _ & Ha0 & _).
      rewrite Happ in Ha0. cbn [fst] in Ha0. rewrite Hk in Hb.
      match type of Hb with (?l, _) = _ => assert (evs = l) as -> by congruence end.
      eexists. unfold env_actions in *. rewrite omap_app, Ha0. done. }
    unfold reward_lines, action_lines, opened_fps, env_results, env_actions in *.
    rewrite !omap_app, !imap_app, Hrl, Hal, Hfp, IHr, IHa, IHf, Hr, Ha, Hstep.
    simpl. rewrite !Nat.add_0_r. repeat split; f_equal; apply imap_ext; intros; simpl;
      repeat f_equal; lia.
Qed.

(** In the loop body the line with the action is printed right before
    [env.step] is called and the line with the reward right after it, both
    with the current step index. *)
Lemma iteration_console ws s (hd : list ev) a r (tl : list ev) :
  (body ws s).1 = hd ++ EnvStep a r :: tl →
  env_results hd = [] ∧
  ∃ hd' tl',
    hd = hd' ++ [Print (MsgAction (step s) a)] ∧
    tl = Print (MsgReward (step s) (sr_reward r) (sr_terminated r)) :: tl'.
Proof.
  destruct (iteration_cases ws s) as [(k & _ & ->)|H]; cbn [fst].
  { intros Heq. destruct hd as [|? [|? ?]]; simplify_eq/=. }
  destruct H as (top & side & wrist & batch & out & p' & r0 & e' & fevs & fout
                 & _ & _ & _ & _ & _ & _ & Happ & ->).
  cbn [fst]. intros Heq.
  destruct (append_frames_log ws (map_to_list (sensor_data (sr_obs r0))))
    as (_ & _ & Hr & _).
  rewrite Happ in Hr. cbn [fst] in Hr.
  apply app_eq_cons_split in Heq as [(tl1 & Heq & ->)|(hd2 & -> & Heq)].
  - destruct hd as [|x1 [|x2 [|x3 [|x4 [|x5 [|x6 hd]]]]]]; simplify_eq/=.
    split; [done|]. by eexists [_; _], _.
  - exfalso. assert (r ∈ env_results fevs) as Hin.
    { apply (env_results_elem _ a). rewrite Heq. apply elem_of_app. right. by left. }
    rewrite Hr in Hin. by apply elem_of_nil in Hin.
Qed.

Lemma loop_console ws fuel s (hd : list ev) a r (tl : list ev) :
  (loop fuel ws s).1 = hd ++ EnvStep a r :: tl →
  let n := step s + length (env_results hd) in
  ∃ hd' tl',
    hd = hd' ++ [Print (MsgAction n a)] ∧
    tl = Print (MsgReward n (sr_reward r) (sr_terminated r)) :: tl'.
Proof.
  revert hd a r tl. cbv zeta.
  apply (while_not_done_ind ws (λ s evs _, ∀ hd a r tl,
    evs = hd ++ EnvStep a r :: tl →
    ∃ hd' tl',
      hd = hd' ++ [Print (MsgAction (step s + length (env_results hd)) a)] ∧
      tl = Print (MsgReward (step s + length (env_results hd))
                    (sr_reward r) (sr_terminated r)) :: tl')).
  - intros s0 _ hd a r tl H. by destruct hd.
  - intros s0 _ hd a r tl H. by destruct hd.
  - intros s0 evs e _ Hb hd a r tl Heq.
    destruct (iteration_console ws s0 hd a r tl) as (Hr & Hcon); [by rewrite Hb|].
    rewrite Hr. simpl. by rewrite Nat.add_0_r.
  - intros s0 evs s1 evs' out _ Hb IH hd a r tl Heq.
    apply app_eq_cons_split in Heq as [(tl1 & Heq & ->)|(hd2 & -> & Heq)].
    + destruct (iteration_console ws s0 hd a r tl1) as (Hr & hd' & tl' & Hhd & ->);
        [by rewrite Hb|].
      rewrite Hr. simpl. rewrite Nat.add_0_r. by exists hd', (tl' ++ evs').
    + destruct (IH _ _ _ _ Heq) as (hd' & tl' & Hhd & Htl).
      destruct (iteration_Done ws s0 evs s1 Hb) as (r0 & Hr & Hstep & _).
      assert (step s0 + length (env_results (evs ++ hd2))
              = step s1 + length (env_results hd2)) as ->.
      { unfold env_results in *. rewrite omap_app, length_app, Hr, Hstep. simpl. lia. }
      exists (evs ++ hd'), tl'. split; [|done].
      rewrite <- app_assoc. f_equal. exact Hhd.
Qed.

(** X10. The console lines follow the step counter: the line printed after
    the i-th [env.step] call shows step index i together with the reward and
    the terminated flag that this call returned, and the line printed before
    it shows step index i with the action handed to it, whatever the outcome
    of the run.  The two lines are printed right before and right after the
    call. *)
Theorem console_lines_follow_step_counter fuel obs0 e0 p0 :
  let tr := (main fuel obs0 e0 p0).1 in
  reward_lines tr = imap (λ i r, (i, sr_reward r, sr_terminated r)) (env_results tr) ∧
  action_lines tr = imap (λ i a, (i, a)) (env_actions tr) ∧
  (∀ pre a r post,
     tr = pre ++ EnvStep a r :: post →
     let i := length (env_results pre) in
     ∃ pre' post',
       pre = pre' ++ [Print (MsgAction i a)] ∧
       post = Print (MsgReward i (sr_reward r) (sr_terminated r)) :: post').
Proof.
  destruct (writers_spec (sensor_data obs0))
    as (opens & ws & Hopen & _ & _ & _ & _ & _ & _ & Hor & _).
  destruct (loop_lines ws fuel (init obs0 e0 p0)) as (Hrl & Hal & _).
  cbv zeta. split; [|split].
  - unfold reward_lines, env_results in *.
    rewrite !(script_omap _ fuel obs0 e0 p0 opens ws Hopen) by done.
    by rewrite Hrl.
  - unfold action_lines, env_actions in *.
    rewrite !(script_omap _ fuel obs0 e0 p0 opens ws Hopen) by done.
    by rewrite Hal.
  - destruct (script_log fuel obs0 e0 p0)
      as (opens' & ws' & tail & Hopen' & -> & Htr & _).
    rewrite Hopen in Hopen'. injection Hopen' as <- <-.
    intros pre a r post Heq.
    apply app_eq_cons_split in Heq as [(post1 & Heq & _)|(pre2 & -> & Heq)].
    { exfalso. assert (r ∈ env_results opens) as Hin.
      { apply (env_results_elem _ a). rewrite Heq. apply elem_of_app. right. by left. }
      rewrite Hor in Hin. by apply elem_of_nil in Hin. }
    apply app_eq_cons_split in Heq as [(post1 & Heq & ->)|(pre3 & -> & Heq)].
    + pose proof (loop_console ws fuel (init obs0 e0 p0) pre2 a r post1 Heq) as Hc.
      cbv zeta in Hc. destruct Hc as (hd' & tl' & Hhd & Htl).
      assert (length (env_results (opens ++ pre2))
              = step (init obs0 e0 p0) + length (env_results pre2)) as ->.
      { unfold env_results in *. by rewrite omap_app, Hor. }
      exists (opens ++ hd'), (tl' ++ tail). split.
      * rewrite <- app_assoc. f_equal. exact Hhd.
      * by rewrite Htl.
    + exfalso. assert (r ∈ env_results tail) as Hin.
      { apply (env_results_elem _ a). rewrite Heq. apply elem_of_app. right. by left. }
      rewrite Htr in Hin. by apply elem_of_nil in Hin.
Qed.

(** X9. Every writer is opened with the same frame rate: the environment's
    [render_fps] if its metadata has one, and 30 otherwise. *)
Theorem writers_opened_at_render_fps_or_30 fuel obs0 e0 p0 :
  let tr := (main fuel obs0 e0 p0).1 in
  let rate := match env_metadata !! "render_fps" with Some n => n | None => 30 end in
  opened_fps tr = replicate (size (sensor_data obs0)) rate.
Proof.
  intros tr rate.
  destruct (writers_spec (sensor_data obs0))
    as (opens & ws & Hopen & _ & _ & _ & Hoo & _).
  destruct (script_log fuel obs0 e0 p0)
    as (opens' & ws' & tail & Hopen' & Hlog & _ & _ & _ & _ & Hto & _).
  rewrite Hopen in Hopen'. injection Hopen' as <- <-.
  destruct (loop_lines ws fuel (init obs0 e0 p0)) as (_ & _ & Hlf).
  pose proof (open_writers_events (map_to_list (sensor_data obs0)).*1 ∅) as Hev.
  rewrite Hopen in Hev. cbn [fst] in Hev.
  assert (∀ evs, opened_fps evs = [] ↔ opened evs = []) as Hiff.
  { intros evs. unfold opened_fps, opened.
    induction evs as [|[]]; simpl; try done; split; done. }
  assert (opened_fps opens = replicate (length (opened opens)) rate) as Hfo.
  { clear Hoo Hopen Hlog. unfold opened_fps, opened.
    induction Hev as [|x l Hx _ IH]; [done|].
    change (x :: l) with ([x] ++ l). rewrite !omap_app, IH, length_app.
    destruct x as [[]| | | | |]; try done.
    simpl. f_equal. rewrite Hx. unfold fps, rate.
    by destruct (env_metadata !! "render_fps"). }
  assert (∀ l1 l2 : list ev, opened_fps (l1 ++ l2) = opened_fps l1 ++ opened_fps l2)
    as Happ by (intros; apply omap_app).
  unfold tr. rewrite Hlog, !Happ, Hfo, (proj2 (Hiff tail) Hto), Hlf, !app_nil_r, Hoo.
  by rewrite !length_fmap, length_map_to_list.
Qed.

Lemma filter_none {A} (P : A → Prop) `{∀ x, Decision (P x)} (l : list A) :
  (∀ x, x ∈ l → ¬ P x) → filter P l = [].
Proof.
  induction l as [|x l IH]; intros HP; [done|].
  rewrite filter_cons, decide_False by (apply HP; by left).
  apply IH. intros y Hy. apply HP. by right.
Qed.

(** One pass over the cameras gives nothing to a writer of another camera. *)
Lemma append_frames_other ws (items : list (string * camera_data)) (w : string) :
  keyed_by_camera ws →
  w ∉ items.*1 →
  frames_of w (append_frames (action7 := action7) ws items).1 = [].
Proof.
  intros Hkey Hw.
  destruct (append_frames_spec ws items) as (evs & out & -> & _ & _ & Hin & _).
  cbn [fst]. unfold frames_of. rewrite filter_none; [done|].
  intros [w' f] Hp Heq. simpl in Heq. subst w'.
  destruct (Hin _ Hp) as ([k d] & Hitem & Hfi).
  unfold frame_item in Hfi. simpl in Hfi.
  destruct (frame_of (rgb d)); [|done]. destruct (ws !! k) as [w'|] eqn:Hk; [|done].
  injection Hfi as -> _. apply Hkey in Hk as ->. apply Hw.
  apply list_elem_of_fmap. by exists (k, d).
Qed.

Lemma frames_of_single (w' w : string) (f : image Z) :
  frames_of w [AppendData (action7 := action7) w' f] = if decide (w' = w) then [f] else [].
Proof.
  unfold frames_of, appended. cbn [omap list_omap].
  rewrite filter_cons, filter_nil. cbn [fst]. by destruct (decide (w' = w)).
Qed.

(** One pass over the cameras gives a writer at most one frame, also when
    the pass is cut short by an error. *)
Lemma append_frames_at_most_one ws (items : list (string * camera_data)) (w : string) :
  keyed_by_camera ws → NoDup items.*1 →
  length (frames_of w (append_frames (action7 := action7) ws items).1) ≤ 1.
Proof.
  intros Hkey. induction items as [|[k d] items IH]; intros Hnd; [simpl; lia|].
  simpl in Hnd. apply NoDup_cons in Hnd as [Hk Hnd].
  simpl. destruct (frame_of (rgb d)) as [f|]; simpl; [|lia].
  unfold getitem. destruct (ws !! k) as [w'|] eqn:Hw; simpl; [|lia].
  pose proof (append_frames_other ws items w Hkey) as Hother.
  specialize (IH Hnd).
  destruct (append_frames ws items) as [evs out]. cbn [fst] in *.
  change (AppendData w' f :: evs) with ([AppendData w' f] ++ evs).
  rewrite frames_of_app, length_app, frames_of_single.
  destruct (decide (w' = w)) as [->|Hne]; [|simpl; lia].
  rewrite Hother; [simpl; lia|].
  apply Hkey in Hw as ->. done.
Qed.

Lemma frame_steps_app (w : string) (n : nat) evs evs' :
  frame_steps w n (evs ++ evs')
  = frame_steps w n evs ++ frame_steps w (n + length (env_results evs)) evs'.
Proof.
  revert n. induction evs as [|x evs IH]; intros n.
  { simpl. by rewrite Nat.add_0_r. }
  destruct x as [| |w' f| | |a r]; simpl; rewrite ?IH; try done.
  - by destruct (decide (w' = w)).
  - by rewrite Nat.add_succ_r.
Qed.

Lemma frame_steps_length (w : string) (n : nat) evs :
  length (frame_steps w n evs) = length (frames_of w evs).
Proof.
  revert n. induction evs as [|x evs IH]; intros n; [done|].
  change (x :: evs) with ([x] ++ evs). rewrite frames_of_app, length_app.
  destruct x as [| |w' f| | |a r]; simpl; rewrite ?IH; try done.
  rewrite frames_of_single. destruct (decide (w' = w)); simpl; by rewrite IH.
Qed.

(** Frames appended without an [env.step] call in between belong to one
    step. *)
Lemma frame_steps_same_step (w : string) (n : nat) evs :
  env_results evs = [] →
  frame_steps w n evs = replicate (length (frames_of w evs)) n.
Proof.
  induction evs as [|x evs IH]; intros Hr; [done|].
  change (x :: evs) with ([x] ++ evs). rewrite frames_of_app, length_app.
  destruct x as [| |w' f| | |a r]; simpl in *; try (by apply IH); [|done].
  rewrite frames_of_single. destruct (decide (w' = w)); simpl; by rewrite IH.
Qed.

(** The frames one writer receives in a log come after pairwise different
    [env.step] calls of that log: none before the first call. *)
Lemma iteration_frame_steps ws s (w : string) (n : nat) :
  keyed_by_camera ws →
  let calls := frame_steps w n (body ws s).1 in
  NoDup calls ∧
  Forall (λ i, n < i ≤ n + length (env_results (body ws s).1)) calls.
Proof.
  intros Hkey. destruct (iteration_cases ws s) as [(k & _ & ->)|H].
  { simpl. split; constructor. }
  destruct H as (top & side & wrist & batch & out & p' & r & e' & fevs & fout
                 & _ & _ & _ & _ & _ & _ & Happ & ->).
  pose proof (append_frames_at_most_one ws (map_to_list (sensor_data (sr_obs r))) w
                Hkey (NoDup_fst_map_to_list _)) as Hone.
  destruct (append_frames_log ws (map_to_list (sensor_data (sr_obs r))))
    as (_ & _ & Hr & _).
  rewrite Happ in Hone, Hr. cbn [fst] in *.
  rewrite frame_steps_app. unfold env_results in *. rewrite omap_app, Hr.
  simpl. fold (env_results fevs) in Hr.
  rewrite (frame_steps_same_step w _ fevs Hr).
  destruct (length (frames_of w fevs)) as [|[|k]]; [| |lia]; simpl.
  - split; constructor.
  - split; [apply NoDup_singleton|]. constructor; [lia|constructor].
Qed.

Lemma loop_frame_steps ws fuel s (w : string) :
  keyed_by_camera ws →
  ∀ n, NoDup (frame_steps w n (loop fuel ws s).1) ∧
       Forall (λ i, n < i ≤ n + length (env_results (loop fuel ws s).1))
         (frame_steps w n (loop fuel ws s).1).
Proof.
  intros Hkey.
  apply (while_not_done_log ws (λ evs, ∀ n,
    NoDup (frame_steps w n evs) ∧
    Forall (λ i, n < i ≤ n + length (env_results evs)) (frame_steps w n evs))).
  - intros n. split; constructor.
  - intros e1 e2 H1 H2 n.
    destruct (H1 n) as [Hnd1 Hin1].
    destruct (H2 (n + length (env_results e1))) as [Hnd2 Hin2].
    rewrite frame_steps_app. unfold env_results in *.
    rewrite omap_app, length_app. rewrite Forall_forall in Hin1, Hin2. split.
    + apply NoDup_app. repeat split; try done.
      intros i Hi1 Hi2. specialize (Hin1 i Hi1). specialize (Hin2 i Hi2). lia.
    + apply Forall_app. split; apply Forall_forall; intros i Hi.
      * specialize (Hin1 i Hi). lia.
      * specialize (Hin2 i Hi). lia.
  - intros s0 n. by apply iteration_frame_steps.
Qed.

(** X12. No writer gets more than one frame per [env.step] call, on any
    run, whether it reaches the end of the script or ends in an error: the
    frames that one writer receives come after pairwise different
    [env.step] calls, none of them before the first call; so a writer never
    holds more frames than there were calls.  Writers are told apart by the
    camera they were created for. *)
Theorem at_most_one_frame_per_step fuel obs0 e0 p0 (w : string) :
  let tr := (main fuel obs0 e0 p0).1 in
  let calls := frame_steps w 0 tr in
  length calls = length (frames_of w tr) ∧
  NoDup calls ∧
  (∀ i, i ∈ calls → 1 ≤ i ≤ length (env_results tr)) ∧
  length (frames_of w tr) ≤ length (env_results tr).
Proof.
  intros tr calls.
  destruct (writers_spec (sensor_data obs0))
    as (opens & ws & Hopen & Hws & _ & _ & _ & _ & Hoa & Hor & _).
  destruct (writers_keyed _ _ Hws) as [Hkey _].
  destruct (script_log fuel obs0 e0 p0)
    as (opens' & ws' & tail & Hopen' & Hlog & Htr & _ & _ & _ & _ & Hta).
  rewrite Hopen in Hopen'. injection Hopen' as <- <-.
  assert (∀ n (evs : list ev), appended evs = [] → frame_steps w n evs = []) as Hsilent.
  { intros n evs Ha. apply length_zero_iff_nil.
    by rewrite frame_steps_length, frames_of_silent. }
  assert (calls = frame_steps w 0 (loop fuel ws (init obs0 e0 p0)).1) as Hcalls.
  { unfold calls, tr. rewrite Hlog, !frame_steps_app, Hor.
    rewrite (Hsilent _ opens Hoa), (Hsilent _ tail Hta). simpl.
    by rewrite app_nil_r. }
  assert (env_results tr = env_results (loop fuel ws (init obs0 e0 p0)).1) as Hres.
  { apply (script_env_results fuel obs0 e0 p0 opens ws Hopen). }
  destruct (loop_frame_steps ws fuel (init obs0 e0 p0) w Hkey 0) as [Hnd Hin].
  rewrite <- Hcalls, <- Hres in *. rewrite Forall_forall in Hin.
  assert (length calls = length (frames_of w tr)) as Hlen
    by apply frame_steps_length.
  split; [done|]. split; [done|]. split.
  { intros i Hi. specialize (Hin i Hi). lia. }
  assert (length calls ≤ length (seq 1 (length (env_results tr)))) as Hle.
  { apply submseteq_length, NoDup_submseteq; [done|].
    intros i Hi. specialize (Hin i Hi). apply elem_of_seq. lia. }
  rewrite length_seq in Hle. lia.
Qed.

End Facts.

(** ** Action scaling *)

Lemma scale_action_rows (a : list (list Q)) : scale_action a = map scale_row a.
Proof. unfold scale_action, imul_cols. by rewrite map_map. Qed.

Lemma Forall2_Qeq_refl (l : list Q) : Forall2 Qeq l l.
Proof. induction l; constructor; [reflexivity|done]. Qed.

Ltac rows_to_six r :=
  destruct r as [|? [|? [|? [|? [|? [|? r]]]]]].

Lemma scale_row_add (r1 r2 : list Q) :
  Forall2 Qeq (scale_row (zip_with Qplus r1 r2))
    (zip_with Qplus (scale_row r1) (scale_row r2)).
Proof.
  rows_to_six r1; rows_to_six r2; cbn;
    repeat (constructor; [ring|]); try constructor.
  unfold imul_slice. cbn. apply Forall2_Qeq_refl.
Qed.

Lemma scale_row_scale (c : Q) (r : list Q) :
  Forall2 Qeq (scale_row (map (Qmult c) r)) (map (Qmult c) (scale_row r)).
Proof.
  rows_to_six r; cbn; repeat (constructor; [ring|]); try constructor.
  apply Forall2_Qeq_refl.
Qed.

Lemma scale_action_add (a b : list (list Q)) :
  tensor_eq (scale_action (tensor_add a b))
    (tensor_add (scale_action a) (scale_action b)).
Proof.
  rewrite !scale_action_rows. unfold tensor_eq, tensor_add.
  revert b. induction a as [|r1 a IH]; intros [|r2 b]; simpl; try constructor.
  - apply scale_row_add.
  - apply IH.
Qed.

Lemma scale_action_scale (c : Q) (a : list (list Q)) :
  tensor_eq (scale_action (tensor_scale c a)) (tensor_scale c (scale_action a)).
Proof.
  rewrite !scale_action_rows. unfold tensor_eq, tensor_scale.
  induction a as [|r a IH]; simpl; constructor.
  - apply scale_row_scale.
  - apply IH.
Qed.

Lemma scale_action_zeros (n : nat) : tensor_eq (scale_action (zeros n 6)) (zeros n 6).
Proof.
  rewrite scale_action_rows. unfold tensor_eq, zeros.
  induction n as [|n IH]; simpl; constructor; [|done].
  cbn. repeat (constructor; [ring|]). constructor.
Qed.

(** Scaling the action of all ones twice does not give what scaling it once
    gives. *)
Lemma rescale_ones_differs :
  ¬ tensor_eq (scale_action (scale_action [[1; 1; 1; 1; 1; 1]%Q]))
      (scale_action [[1; 1; 1; 1; 1; 1]%Q]).
Proof.
  intros H. cbn in H. apply Forall2_cons_1 in H as [H _].
  apply Forall2_cons_1 in H as [H _]. discriminate H.
Qed.

(** C7, as amended. In exact arithmetic (the rounding of float32 set aside)
    the scaling of lines 156-157 distributes over the sum of two batches of
    actions and commutes with the product by a scalar, and it maps the zero
    6-dimensional action to the zero action.  It is not idempotent: applying
    it a second time multiplies the components by 0.05 and 0.2 once more,
    which changes the scaled action of all ones. *)
Theorem scale_action_linear_not_idempotent :
  (∀ a b, tensor_eq (scale_action (tensor_add a b))
            (tensor_add (scale_action a) (scale_action b))) ∧
  (∀ c a, tensor_eq (scale_action (tensor_scale c a))
            (tensor_scale c (scale_action a))) ∧
  (∀ n, tensor_eq (scale_action (zeros n 6)) (zeros n 6)) ∧
  (∀ a0 a1 a2 a3 a4 a5 : Q,
     scale_action (scale_action [[a0; a1; a2; a3; a4; a5]])
     = [[a0 * 0.05 * 0.05; a1 * 0.05 * 0.05; a2 * 0.05 * 0.05;
         a3 * 0.2 * 0.2; a4 * 0.2 * 0.2; a5 * 0.2 * 0.2]]%Q) ∧
  ¬ (∀ a, tensor_eq (scale_action (scale_action a)) (scale_action a)).
Proof.
  split; [apply scale_action_add|]. split; [apply scale_action_scale|].
  split; [apply scale_action_zeros|]. split; [done|].
  intros H. exact (rescale_ones_differs (H _)).
Qed.

(** ** The step cap *)

Section TimeLimit.

Context {action7 : Type}.
Variable convert_7_to_6 : list (list Q) → list Q.
Variable convert_6_to_7 : list (list Q) → action7.
Context {policy_state : Type}.
Variable select_action :
  policy_state → gmap string batch_value → list (list Q) * policy_state.
Context {inner_state : Type}.
Variable inner_step : inner_state → action7 → step_result * inner_state.
Variable env_metadata : gmap string nat.
Variable cap : nat.

Abbreviation capped_body :=
  (iteration convert_7_to_6 convert_6_to_7 select_action (time_limit_step cap inner_step)).
Abbreviation capped_loop :=
  (while_not_done convert_7_to_6 convert_6_to_7 select_action
     (time_limit_step cap inner_step)).

Implicit Types (s : @locals policy_state (inner_state * nat)).

Lemma capped_body_results ws s :
  length (env_results (capped_body ws s).1) ≤ 1.
Proof.
  destruct (iteration_cases convert_7_to_6 convert_6_to_7 select_action
              (time_limit_step cap inner_step) ws s) as [(k & _ & ->)|H]; simpl; [lia|].
  destruct H as (top & side & wrist & batch & out & p' & r & e' & fevs & fout
                 & _ & _ & _ & _ & _ & _ & Happ & ->).
  destruct (append_frames_log (action7 := action7) ws
              (map_to_list (sensor_data (sr_obs r)))) as (_ & _ & Hr & _).
  rewrite Happ in Hr. cbn [fst] in *. unfold env_results in *.
  rewrite omap_app, Hr. simpl. lia.
Qed.

Lemma capped_body_Done ws s evs s' :
  below_cap cap s → done s = false →
  capped_body ws s = (evs, Done s') →
  below_cap cap s' ∧ step s' = S (step s) ∧ length (env_results evs) = 1.
Proof.
  intros [Hel Hlt] Hd Hb.
  destruct (iteration_cases convert_7_to_6 convert_6_to_7 select_action
              (time_limit_step cap inner_step) ws s) as [(k & _ & Hk)|H].
  { rewrite Hk in Hb. discriminate. }
  destruct H as (top & side & wrist & batch & out & p' & r & e' & fevs & fout
                 & _ & _ & _ & _ & _ & Hstep & Happ & Hk).
  rewrite Hk in Hb.
  destruct (append_frames_log (action7 := action7) ws
              (map_to_list (sensor_data (sr_obs r)))) as (_ & _ & Hr & _).
  rewrite Happ in Hr. cbn [fst] in Hr.
  destruct fout as [[]| |]; try discriminate.
  match type of Hb with (?l, Done ?x) = _ =>
    assert (evs = l) as -> by congruence; assert (s' = x) as -> by congruence
  end.
  split; [|split; [done|]].
  2:{ unfold env_results in *. by rewrite omap_app, Hr. }
  unfold time_limit_step in Hstep.
  destruct (inner_step (env s).1 _) as [r0 inner'] eqn:Hin.
  injection Hstep as <- <-.
  unfold below_cap. simpl. rewrite Hel, Hd. split; [done|].
  rewrite orb_false_r. intros [_ Htr]%orb_false_elim.
  apply orb_false_elim in Htr as [_ Hcap].
  apply Nat.leb_gt in Hcap. lia.
Qed.

Lemma capped_loop_stops ws fuel s :
  below_cap cap s → step s ≤ cap → cap - step s ≤ fuel →
  let lp := capped_loop fuel ws s in
  lp.2 ≠ OutOfFuel ∧
  step s + length (env_results lp.1) ≤ cap ∧
  (∀ s', lp.2 = Done s' →
         step s' = step s + length (env_results lp.1) ∧ done s' = true).
Proof.
  revert s. induction fuel as [|fuel IH]; intros s Hinv Hle Hfuel.
  - assert (done s = true) as Hd.
    { destruct (done s) eqn:Hd; [done|]. destruct Hinv as [_ Hlt].
      specialize (Hlt Hd). lia. }
    simpl. rewrite Hd. simpl. split; [done|]. split; [lia|].
    intros s' [= <-]. split; [lia|done].
  - simpl. destruct (done s) eqn:Hd; simpl.
    { split; [done|]. split; [lia|]. intros s' [= <-]. split; [lia|done]. }
    rewrite M_bind_unfold.
    pose proof (capped_body_results ws s) as Hlen.
    destruct (capped_body ws s) as [evs [s1| e |]] eqn:Hb; simpl in *.
    + destruct (capped_body_Done ws s evs s1 Hinv Hd Hb) as (Hinv1 & Hstep1 & Hone).
      destruct Hinv as [_ Hlt]. specialize (Hlt Hd).
      destruct (IH s1 Hinv1) as (Hnf & Hbound & Hdone); [lia|lia|].
      unfold env_results in *. rewrite omap_app, length_app.
      split; [done|]. split; [lia|].
      intros s' Hs'. destruct (Hdone s' Hs') as [? ?]. split; [lia|done].
    + destruct Hinv as [_ Hlt]. specialize (Hlt Hd).
      split; [done|]. split; [lia|]. intros s' [=].
    + exfalso.
      apply (iteration_fuel convert_7_to_6 convert_6_to_7 select_action
               (time_limit_step cap inner_step) ws s).
      by rewrite Hb.
Qed.

Lemma capped_script_stops fuel obs0 (e0 : inner_state) p0 :
  1 ≤ cap →
  let run := script convert_7_to_6 convert_6_to_7 select_action
               (time_limit_step cap inner_step) env_metadata
               (cap + fuel) obs0 (e0, 0) p0 in
  run.2 ≠ OutOfFuel ∧
  length (env_results run.1) ≤ cap ∧
  (∀ s, run.2 = Done s → step s = length (env_results run.1) ∧ done s = true).
Proof.
  intros Hcap run.
  destruct (writers_spec (action7 := action7) env_metadata (sensor_data obs0))
    as (opens & ws & Hopen & _ & _ & _ & _ & _ & _ & Hor & _).
  pose proof (script_unfold convert_7_to_6 convert_6_to_7 select_action
    (time_limit_step cap inner_step) env_metadata (cap + fuel) obs0 (e0, 0) p0
    opens ws Hopen) as Hrun.
  destruct (script_log convert_7_to_6 convert_6_to_7 select_action
    (time_limit_step cap inner_step) env_metadata (cap + fuel) obs0 (e0, 0) p0)
    as (opens' & ws' & tail & Hopen' & Hlog & Htr & _).
  rewrite Hopen in Hopen'. injection Hopen' as <- <-.
  destruct (capped_loop_stops ws (cap + fuel) (init obs0 (e0, 0) p0))
    as (Hnf & Hbound & Hdone).
  { split; simpl; [done|lia]. }
  { simpl. lia. }
  { simpl. lia. }
  simpl in Hbound, Hdone.
  assert (Hres : env_results run.1
                 = env_results (capped_loop (cap + fuel) ws (init obs0 (e0, 0) p0)).1).
  { unfold run. rewrite Hlog. unfold env_results in *.
    by rewrite !omap_app, Hor, Htr, app_nil_r. }
  rewrite Hres. cbv zeta in Hrun. fold run in Hrun.
  destruct (capped_loop (cap + fuel) ws (init obs0 (e0, 0) p0)) as [levs [s1| e |]];
    simpl in *; [|by rewrite Hrun|done].
  destruct (Hdone s1 eq_refl) as [Hstep Hd].
  destruct (terminated s1); rewrite Hrun; simpl.
  - split; [done|]. split; [done|]. by intros s [= <-].
  - split; [done|]. split; [done|]. intros s [=].
Qed.

End TimeLimit.

(** C3. With the environment's step cap at [max_episode_steps = 500], the
    rollout loop needs no more than 500 passes, whatever the policy and the
    environment below the cap do and even if the terminated flag is never
    set: the run does not go on beyond 500 passes, [env.step] is called at
    most 500 times, and a run that reaches the end of the script has left the
    loop with [done] set after as many steps as calls. *)
Theorem rollout_stops_at_step_cap {action7 policy_state inner_state : Type}
    (convert_7_to_6 : list (list Q) → list Q)
    (convert_6_to_7 : list (list Q) → action7)
    (select_action :
       policy_state → gmap string batch_value → list (list Q) * policy_state)
    (inner_step : inner_state → action7 → step_result * inner_state)
    (env_metadata : gmap string nat)
    (fuel : nat) (obs0 : observation) (e0 : inner_state) (p0 : policy_state) :
  let run := script convert_7_to_6 convert_6_to_7 select_action
               (time_limit_step max_episode_steps inner_step) env_metadata
               (max_episode_steps + fuel) obs0 (e0, 0) p0 in
  run.2 ≠ OutOfFuel ∧
  length (env_results run.1) ≤ 500 ∧
  (∀ s, run.2 = Done s →
        step s = length (env_results run.1) ∧ step s ≤ 500 ∧ done s = true).
Proof.
  intros run.
  destruct (capped_script_stops convert_7_to_6 convert_6_to_7 select_action
              inner_step env_metadata max_episode_steps fuel obs0 e0 p0)
    as (Hnf & Hlen & Hdone); [unfold max_episode_steps; lia|].
  fold run in Hnf, Hlen, Hdone. unfold max_episode_steps in Hlen.
  split; [done|]. split; [done|].
  intros s Hs. destruct (Hdone s Hs) as [Hstep Hd]. repeat split; try done. lia.
Qed.

(** ** Slices, frames and shapes *)

Lemma imul_slice_lookup (k : Q) (row : list Q) (lo hi i : nat) :
  lo ≤ hi →
  imul_slice lo hi k row !! i
  = (λ x, if (lo <=? i) && (i <? hi) then (x * k)%Q else x) <$> row !! i.
Proof.
  revert lo hi i. induction row as [|x row IH]; intros lo hi i Hle.
  { unfold imul_slice. rewrite take_nil, drop_nil, take_nil, drop_nil. done. }
  destruct lo as [|lo].
  - destruct hi as [|hi].
    + unfold imul_slice. simpl. by destruct ((x :: row) !! i).
    + assert (imul_slice 0 (S hi) k (x :: row) = (x * k)%Q :: imul_slice 0 hi k row) as ->.
      { unfold imul_slice. simpl. by rewrite Nat.sub_0_r. }
      destruct i as [|i]; [done|]. simpl. rewrite IH by lia. done.
  - destruct hi as [|hi]; [lia|].
    assert (imul_slice (S lo) (S hi) k (x :: row) = x :: imul_slice lo hi k row) as -> by done.
    destruct i as [|i]; [done|]. simpl. rewrite IH by lia. done.
Qed.

Lemma scale_row_imap (row : list Q) : scale_row row = imap scale_at row.
Proof.
  apply list_eq. intros i. unfold scale_row.
  rewrite list_lookup_imap, !imul_slice_lookup by lia.
  destruct (row !! i) as [x|]; [|done]. simpl. f_equal. unfold scale_at.
  do 6 (destruct i as [|i]; [done|]). done.
Qed.

(** X7. The two in-place products of lines 156-157 work column by column on
    actions of any shape: column i of every row is multiplied by 0.05 if
    i < 3 and by 0.2 if 3 <= i < 6, and left as it is from column 6 on; rows
    shorter than 6 are scaled as far as they go, and the shape of the batch
    is kept. *)
Theorem scale_action_columnwise (a : list (list Q)) :
  scale_action a = map (imap scale_at) a ∧
  length (scale_action a) = length a ∧
  map length (scale_action a) = map length a ∧
  (∀ b i, scale_action a !! b ≫= (.!! i) = scale_at i <$> (a !! b ≫= (.!! i))) ∧
  (∀ i x, 6 ≤ i → scale_at i x = x).
Proof.
  assert (scale_action a = map (imap scale_at) a) as H.
  { rewrite scale_action_rows. apply map_ext. intros row. apply scale_row_imap. }
  split; [done|]. rewrite H. split; [by rewrite length_map|]. split.
  { rewrite map_map. apply map_ext. intros row. apply length_imap. }
  split.
  - intros b i. change (map (imap scale_at) a) with (imap scale_at <$> a).
    rewrite list_lookup_fmap. destruct (a !! b) as [row|]; [|done]. simpl.
    apply list_lookup_imap.
  - intros i x Hi. unfold scale_at.
    destruct (i <? 3) eqn:H3; [apply Nat.ltb_lt in H3; lia|].
    destruct (i <? 6) eqn:H6; [apply Nat.ltb_lt in H6; lia|]. done.
Qed.

Lemma astype_uint8_range (z : Z) : (0 ≤ astype_uint8 z < 256)%Z.
Proof. unfold astype_uint8. apply Z.mod_pos_bound. lia. Qed.

(** X8. What line 175 makes of a camera image.  An empty batch axis gives
    the [IndexError].  Otherwise only batch element 0 is used: the frame
    has the height and width of that element, at most three channels per
    pixel and entries between 0 and 255.  If that element is already RGB
    with entries between 0 and 255, the frame is that element unchanged. *)
Theorem frame_of_batch_element_0 :
  frame_of [] = None ∧
  (∀ im rest, ∃ f,
     frame_of (im :: rest) = Some f ∧
     map (map length) f = map (map (λ px, length px `min` 3)) im ∧
     Forall (Forall (Forall (λ z, (0 ≤ z < 256)%Z))) f) ∧
  (∀ im rest,
     Forall (Forall (λ px, length px ≤ 3 ∧ Forall pixel_range px)) im →
     frame_of (im :: rest) = Some im).
Proof.
  split; [done|]. split.
  - intros im rest. eexists. split; [reflexivity|]. split.
    + rewrite !map_map. apply map_ext. intros row. rewrite !map_map.
      apply map_ext. intros px. by rewrite length_map, length_take, Nat.min_comm.
    + rewrite !Forall_map. apply Forall_forall. intros row _.
      rewrite !Forall_map. apply Forall_forall. intros px _.
      rewrite Forall_map. apply Forall_forall. intros z _. apply astype_uint8_range.
  - intros im rest Him. unfold frame_of, index0_first3. simpl. f_equal.
    rewrite map_map. rewrite <- (map_id im) at 2. apply map_ext_Forall.
    eapply Forall_impl; [exact Him|]. intros row Hrow. simpl.
    rewrite map_map. rewrite <- (map_id row) at 2. apply map_ext_Forall.
    eapply Forall_impl; [exact Hrow|]. intros px [Hlen Hpx]. simpl.
    rewrite take_ge by done. rewrite <- (map_id px) at 2. apply map_ext_Forall.
    eapply Forall_impl; [exact Hpx|]. intros z Hz. simpl.
    unfold astype_uint8, pixel_range in *. apply Z.mod_small. lia.
Qed.

(** X11. The image handed to the policy has the shape [B,C,H,W] of the
    observation's [B,H,W,C] image: as many batch elements, per batch element
    as many planes as the image has channels, per plane as many rows as the
    image, and per row as many entries as the image row has pixels. *)
Theorem prepare_image_shape (im : bhwc Z) :
  let t := t_data (prepare_image im) in
  length t = length im ∧
  (∀ b, length (nth b t []) = channels (nth b im [])) ∧
  (∀ b c, c < channels (nth b im []) →
          length (nth c (nth b t []) []) = length (nth b im [])) ∧
  (∀ b c i, c < channels (nth b im []) →
            length (nth i (nth c (nth b t []) []) [])
            = length (nth i (nth b im []) [])).
Proof.
  unfold prepare_image, to_device, div_scalar, permute_0312, to_float32, map4,
    bhwc, image in *. simpl.
  split; [by rewrite !length_map|]. split; [|split].
  - intros b. rewrite 3!nth_map_nil by done. cbv beta.
    by rewrite !length_map, length_seq, channels_map.
  - intros b c Hc. rewrite 4!nth_map_nil by done. cbv beta.
    rewrite channels_map.
    rewrite (nth_map_lt _ (seq 0 (channels (nth b im []))) c 0) by (by rewrite length_seq).
    by rewrite !length_map.
  - intros b c i Hc. rewrite 5!nth_map_nil by done. cbv beta.
    rewrite channels_map.
    rewrite (nth_map_lt _ (seq 0 (channels (nth b im []))) c 0) by (by rewrite length_seq).
    rewrite 2!nth_map_nil by done. by rewrite !length_map.
Qed.

(** ** The script on concrete episodes *)

(** An environment that never reports success is stopped by the cap: the
    script ends after exactly 500 steps with the verdict of a failure. *)
Lemma rollout_stops_at_step_cap_witness :
  let s := Demo.final (Demo.start (0, 0)) Demo.capped.2 in
  Demo.capped.2 = Done s ∧
  (step s = length (env_results Demo.capped.1) ∧ step s ≤ 500 ∧ done s = true) ∧
  step s = 500 ∧ terminated s = Some false ∧ truncated s = Some true.
Proof.
  intros s.
  assert (Demo.capped.2 = Done s) as H by (vm_compute; reflexivity).
  split; [exact H|].
  pose proof (rollout_stops_at_step_cap
    (convert_7_to_6_model Demo.rot) (convert_6_to_7_model Demo.quat) Demo.select
    Demo.idle_step ∅ 0 (Demo.obs Demo.three Demo.pose0) 0 tt) as T.
  cbv zeta in T. fold Demo.capped in T.
  destruct T as (_ & _ & T). split; [exact (T s H)|].
  vm_compute. repeat split.
Defined.



(** The same episode splits into opening, rollout and closing. *)
Lemma writer_lifecycle_witness :
  let s := Demo.final (Demo.start 0) Demo.episode.2 in
  Demo.episode = (Demo.episode.1, Done s) ∧
  ∃ opens mid closes,
    Demo.episode.1 = opens ++ mid ++ closes ∧
    opened opens = (map_to_list (sensor_data (Demo.obs Demo.three Demo.pose0))).*1 ∧
    appended opens = [] ∧ closed mid = [] ∧ appended closes = [] ∧
    closed closes ≡ₚ opened opens.
Proof.
  intros s.
  assert (Demo.episode = (Demo.episode.1, Done s)) as H by (vm_compute; reflexivity).
  split; [exact H|].
  destruct (writer_lifecycle
    (convert_7_to_6_model Demo.rot) (convert_6_to_7_model Demo.quat) Demo.select
    (Demo.env_step Demo.three 2) ∅ 5 (Demo.obs Demo.three Demo.pose0) 0 tt
    Demo.episode.1 s H)
    as (opens & mid & closes & Htr & Hoo & _ & _ & _ & Hoa & _ & _ & Hmc & _ & _ & Hca & Hperm).
  exists opens, mid, closes. repeat split; assumption.
Defined.

(** C6, counterexample. With a tool pose whose first translation component
    is -1, the state tensor handed to the policy holds -1, whatever the
    change of rotation representation is: not every tensor of the policy
    input has its values in [0,1]. *)
Lemma state_tensor_leaves_unit_range :
  ¬ ∃ rot_of_quat : list Q → list Q,
      ∀ b out t,
        SelectAction b out
          ∈ (script (convert_7_to_6_model rot_of_quat) (convert_6_to_7_model Demo.quat)
               Demo.select (Demo.env_step Demo.three 2) ∅ 5
               (Demo.obs Demo.three Demo.pose0) 0 tt).1 →
        b !! OBS_STATE = Some (BState t) →
        Forall (Forall in_unit) (t_data t).
Proof.
  intros (rot & H).
  specialize (H (make_batch (prepare_state (convert_7_to_6_model rot [Demo.pose0]))
                   (prepare_image Demo.picture) (prepare_image Demo.picture)
                   (prepare_image Demo.picture))
                [[1; 1; 1; 1; 1; 1]%Q]
                (prepare_state (convert_7_to_6_model rot [Demo.pose0]))).
  assert (Forall (Forall in_unit)
            (t_data (prepare_state (convert_7_to_6_model rot [Demo.pose0])))) as Hbad.
  { apply H.
    - apply list_elem_of_lookup. exists 7. vm_compute. reflexivity.
    - destruct (make_batch_lookup
        (prepare_state (convert_7_to_6_model rot [Demo.pose0]))
        (prepare_image Demo.picture) (prepare_image Demo.picture)
        (prepare_image Demo.picture)) as (_ & Hst & _).
      exact Hst. }
  cbn in Hbad. apply Forall_cons_1 in Hbad as [Hbad _].
  apply Forall_cons_1 in Hbad as [[Hbad _] _].
  unfold Qle in Hbad. simpl in Hbad. lia.
Qed.

(** The first query of the policy in that episode. *)
Lemma policy_input_contract_witness :
  let pre := take 7 Demo.episode.1 in
  let post := drop 8 Demo.episode.1 in
  let out := [[1; 1; 1; 1; 1; 1]%Q] in
  Demo.episode.1 = pre ++ SelectAction Demo.batch0 out :: post ∧
  dom Demo.batch0 = {[ OBS_STATE; "observation.image2"; "observation.image";
                       "observation.image3"; "task" ]} ∧
  Demo.batch0 !! OBS_STATE
    = Some (BState (Tensor Cuda [convert_7_to_6_model Demo.rot [Demo.pose0]])).
Proof.
  intros pre post out.
  assert (Demo.episode.1 = pre ++ SelectAction Demo.batch0 out :: post) as H
    by (vm_compute; reflexivity).
  split; [exact H|].
  destruct (policy_input_contract
    (convert_7_to_6_model Demo.rot) (convert_6_to_7_model Demo.quat) Demo.select
    (Demo.env_step Demo.three 2) ∅ 5 (Demo.obs Demo.three Demo.pose0) 0 tt
    pre Demo.batch0 out post H)
    as (top & side & wrist & _ & _ & _ & Hdom & _ & Hstate & _).
  split; [exact Hdom|exact Hstate].
Defined.

(** C7, counterexample. Scaling the action of all ones twice gives 0.0025
    and 0.04 where scaling it once gives 0.05 and 0.2. *)
Lemma rescaling_is_not_idempotent :
  scale_action [[1; 1; 1; 1; 1; 1]%Q]
  = [[1 * 0.05; 1 * 0.05; 1 * 0.05; 1 * 0.2; 1 * 0.2; 1 * 0.2]%Q] ∧
  scale_action (scale_action [[1; 1; 1; 1; 1; 1]%Q])
  = [[1 * 0.05 * 0.05; 1 * 0.05 * 0.05; 1 * 0.05 * 0.05;
      1 * 0.2 * 0.2; 1 * 0.2 * 0.2; 1 * 0.2 * 0.2]%Q] ∧
  ¬ tensor_eq (scale_action (scale_action [[1; 1; 1; 1; 1; 1]%Q]))
      (scale_action [[1; 1; 1; 1; 1; 1]%Q]).
Proof. split; [done|]. split; [done|]. exact rescale_ones_differs. Qed.

(** The episode ends with one verdict after its last step. *)
Lemma verdict_is_final_terminated_flag_witness :
  let s := Demo.final (Demo.start 0) Demo.episode.2 in
  Demo.episode = (Demo.episode.1, Done s) ∧
  ∃ pre r closes,
    Demo.episode.1
      = pre ++ Print (if sr_terminated r then MsgSuccess else MsgFailure) :: closes ∧
    last (env_results pre) = Some r ∧ verdicts pre = [] ∧ verdicts closes = [] ∧
    closed pre = [] ∧ closed closes ≡ₚ opened pre.
Proof.
  intros s.
  assert (Demo.episode = (Demo.episode.1, Done s)) as H by (vm_compute; reflexivity).
  split; [exact H|].
  destruct (verdict_is_final_terminated_flag
    (convert_7_to_6_model Demo.rot) (convert_6_to_7_model Demo.quat) Demo.select
    (Demo.env_step Demo.three 2) ∅ 5 (Demo.obs Demo.three Demo.pose0) 0 tt
    Demo.episode.1 s H)
    as (pre & r & closes & Htr & Hlast & _ & Hvp & Hvc & Hcp & _ & _ & Hperm).
  exists pre, r, closes. repeat split; assumption.
Defined.



(** The first frame written in the episode: the picture's entries -1 and
    300 are written as 255 and 44, and its fourth channel is left out.  At
    the end of the episode [frames] is empty. *)
Lemma frame_is_rgb_of_latest_observation_witness :
  let pre := take 11 Demo.episode.1 in
  let post := drop 12 Demo.episode.1 in
  let s := Demo.final (Demo.start 0) Demo.episode.2 in
  Demo.episode.1 = pre ++ AppendData "wrist_camera" Demo.frame0 :: post ∧
  Demo.picture = [[[[-1; 20; 300; 255]; [-1; 20; 300; 255]];
                   [[-1; 20; 300; 255]; [-1; 20; 300; 255]]]]%Z ∧
  Demo.frame0 = [[[255; 20; 44]; [255; 20; 44]]; [[255; 20; 44]; [255; 20; 44]]]%Z ∧
  (∃ r data im rest,
     last (env_results pre) = Some r ∧
     sensor_data (sr_obs r) !! "wrist_camera" = Some data ∧
     rgb data = im :: rest ∧
     Demo.frame0 = map (map (λ px, (λ z, z mod 256)%Z <$> take 3 px)) im ∧
     Forall (Forall (λ px, (length px ≤ 3)%nat ∧
                           Forall (λ z, (0 ≤ z < 256)%Z) px)) Demo.frame0) ∧
  Demo.episode.2 = Done s ∧ frames s = [].
Proof.
  intros pre post s.
  assert (Demo.episode.1 = pre ++ AppendData "wrist_camera" Demo.frame0 :: post) as H
    by (vm_compute; reflexivity).
  assert (Demo.episode.2 = Done s) as Hs by (vm_compute; reflexivity).
  split; [exact H|]. split; [reflexivity|]. split; [reflexivity|].
  destruct (frame_is_rgb_of_latest_observation
    (convert_7_to_6_model Demo.rot) (convert_6_to_7_model Demo.quat) Demo.select
    (Demo.env_step Demo.three 2) ∅ 5 (Demo.obs Demo.three Demo.pose0) 0 tt)
    as (T1 & T2).
  split.
  - destruct (T1 pre "wrist_camera" Demo.frame0 post H)
      as (r & data & im & rest & H1 & H2 & H3 & H4 & H5).
    exists r, data, im, rest. repeat split; assumption.
  - split; [exact Hs|]. exact (T2 s Hs).
Defined.

(** The two actions sent in the episode: the first as computed from the
    initial observation, each [env.step] call right after its policy query,
    and one action per step. *)
Lemma action_is_scaled_policy_output_witness :
  let pre := take 9 Demo.episode.1 in
  let post := drop 10 Demo.episode.1 in
  let s := Demo.final (Demo.start 0) Demo.episode.2 in
  first_missing (sensor_data (Demo.obs Demo.three Demo.pose0)) = None ∧
  5 ≠ 0 ∧
  (∃ b, batch_of (convert_7_to_6_model Demo.rot) (Demo.obs Demo.three Demo.pose0) b ∧
        head (env_actions Demo.episode.1)
        = Some (convert_6_to_7_model Demo.quat (scale_action (Demo.select tt b).1))) ∧
  Demo.episode.1 = pre ++ EnvStep Demo.action0 (Demo.result false) :: post ∧
  (∃ pre' b out n p,
     pre = pre' ++ [SelectAction b out; Print (MsgAction n Demo.action0)] ∧
     out = (Demo.select p b).1 ∧
     Demo.action0 = convert_6_to_7_model Demo.quat (scale_action out)) ∧
  Demo.episode.2 = Done s ∧
  (length (env_actions Demo.episode.1) = step s ∧ 1 ≤ step s) ∧
  env_actions Demo.episode.1 = [Demo.action0; Demo.action0] ∧
  Demo.action0 = [[1 * 0.05; 1 * 0.05; 1 * 0.05; 1; 0; 0; 0]%Q].
Proof.
  intros pre post s.
  assert (first_missing (sensor_data (Demo.obs Demo.three Demo.pose0)) = None) as H1
    by (vm_compute; reflexivity).
  assert (5 ≠ 0) as H2 by discriminate.
  assert (Demo.episode.1 = pre ++ EnvStep Demo.action0 (Demo.result false) :: post)
    as H3 by (vm_compute; reflexivity).
  assert (Demo.episode.2 = Done s) as H4 by (vm_compute; reflexivity).
  destruct (action_is_scaled_policy_output
    (convert_7_to_6_model Demo.rot) (convert_6_to_7_model Demo.quat) Demo.select
    (Demo.env_step Demo.three 2) ∅ 5 (Demo.obs Demo.three Demo.pose0) 0 tt)
    as (_ & T2 & _ & T4 & T5 & _).
  split; [exact H1|]. split; [exact H2|]. split.
  { destruct (T4 H1 H2) as (b & Hb & Hhead). exists b. split; [exact Hb|exact Hhead]. }
  split; [exact H3|]. split.
  { destruct (T2 pre Demo.action0 (Demo.result false) post H3)
      as (pre' & b & out & n & p & Hpre & Hout & Ha).
    exists pre', b, out, n, p. split; [exact Hpre|]. split; [exact Hout|exact Ha]. }
  split; [exact H4|]. split; [exact (T5 s H4)|].
  split; [vm_compute; reflexivity|reflexivity].
Defined.

(** The episode took two steps and bound [terminated] and [truncated]. *)
Lemma terminated_is_bound_at_verdict_witness :
  let s := Demo.final (Demo.start 0) Demo.episode.2 in
  Demo.episode.2 = Done s ∧
  1 ≤ step s ∧ is_Some (terminated s) ∧ is_Some (truncated s).
Proof.
  intros s.
  assert (Demo.episode.2 = Done s) as H by (vm_compute; reflexivity).
  split; [exact H|].
  destruct (terminated_is_bound_at_verdict
    (convert_7_to_6_model Demo.rot) (convert_6_to_7_model Demo.quat) Demo.select
    (Demo.env_step Demo.three 2) ∅ 5 (Demo.obs Demo.three Demo.pose0) 0 tt)
    as (_ & T).
  exact (T s H).
Defined.

(** The first of the two steps of the episode returned both flags false. *)
Lemma no_step_after_terminated_or_truncated_witness :
  let r1 := {| sr_obs := Demo.obs Demo.three Demo.pose0; sr_reward := 0;
               sr_terminated := false; sr_truncated := false |} in
  let r2 := {| sr_obs := Demo.obs Demo.three Demo.pose0; sr_reward := 0;
               sr_terminated := true; sr_truncated := false |} in
  env_results Demo.episode.1 = [] ++ r1 :: [r2] ∧ [r2] ≠ [] ∧
  sr_terminated r1 = false ∧ sr_truncated r1 = false.
Proof.
  intros r1 r2.
  assert (env_results Demo.episode.1 = [] ++ r1 :: [r2]) as H
    by (vm_compute; reflexivity).
  assert ([r2] ≠ []) as Hne by discriminate.
  split; [exact H|]. split; [exact Hne|].
  destruct (no_step_after_terminated_or_truncated
    (convert_7_to_6_model Demo.rot) (convert_6_to_7_model Demo.quat) Demo.select
    (Demo.env_step Demo.three 2) ∅ 5 (Demo.obs Demo.three Demo.pose0) 0 tt)
    as (T & _).
  exact (T [] r1 [r2] H Hne).
Defined.

(** The rewards of the episode. *)
Lemma final_variables_hold_last_step_witness :
  let s := Demo.final (Demo.start 0) Demo.episode.2 in
  Demo.episode = (Demo.episode.1, Done s) ∧
  rewards s = sr_reward <$> env_results Demo.episode.1 ∧
  length (rewards s) = step s.
Proof.
  intros s.
  assert (Demo.episode = (Demo.episode.1, Done s)) as H by (vm_compute; reflexivity).
  split; [exact H|].
  destruct (final_variables_hold_last_step
    (convert_7_to_6_model Demo.rot) (convert_6_to_7_model Demo.quat) Demo.select
    (Demo.env_step Demo.three 2) ∅ 5 (Demo.obs Demo.three Demo.pose0) 0 tt
    Demo.episode.1 s H) as (H1 & H2 & _).
  split; [exact H1|exact H2].
Defined.

(** The run with a camera unknown to the writers ends with all three writers
    open. *)
Lemma abort_leaves_writers_open_witness :
  Demo.new_camera.2 = Raised (KeyError "depth_camera") ∧
  opened Demo.new_camera.1
    = (map_to_list (sensor_data (Demo.obs Demo.three Demo.pose0))).*1 ∧
  opened_paths Demo.new_camera.1
    = video_path <$> (map_to_list (sensor_data (Demo.obs Demo.three Demo.pose0))).*1 ∧
  closed Demo.new_camera.1 = [] ∧ verdicts Demo.new_camera.1 = [].
Proof.
  assert (Demo.new_camera.2 = Raised (KeyError "depth_camera")) as H
    by (vm_compute; reflexivity).
  split; [exact H|].
  destruct (abort_leaves_writers_open
    (convert_7_to_6_model Demo.rot) (convert_6_to_7_model Demo.quat) Demo.select
    (Demo.env_step ("depth_camera" :: Demo.three) 1) ∅ 5
    (Demo.obs Demo.three Demo.pose0) 0 tt (KeyError "depth_camera") H)
    as (Ho & Hp & Hc & Hv).
  split; [exact Ho|]. split; [exact Hp|]. split; [exact Hc|exact Hv].
Defined.




(** The writer of the top camera in the episode: one frame after the first
    call of [env.step] and one after the second. *)
Lemma at_most_one_frame_per_step_witness :
  frame_steps "top_camera" 0 Demo.episode.1 = [1; 2] ∧
  2 ∈ frame_steps "top_camera" 0 Demo.episode.1 ∧
  1 ≤ 2 ≤ length (env_results Demo.episode.1).
Proof.
  assert (frame_steps "top_camera" 0 Demo.episode.1 = [1; 2]) as H
    by (vm_compute; reflexivity).
  assert (2 ∈ frame_steps "top_camera" 0 Demo.episode.1) as Hin.
  { rewrite H. apply list_elem_of_further, list_elem_of_here. }
  split; [exact H|]. split; [exact Hin|].
  destruct (at_most_one_frame_per_step
    (convert_7_to_6_model Demo.rot) (convert_6_to_7_model Demo.quat) Demo.select
    (Demo.env_step Demo.three 2) ∅ 5 (Demo.obs Demo.three Demo.pose0) 0 tt
    "top_camera") as (_ & _ & T & _).
  exact (T 2 Hin).
Defined.

(** The first [env.step] call of the episode, between its two lines. *)
Lemma console_lines_follow_step_counter_witness :
  let pre := take 9 Demo.episode.1 in
  let post := drop 10 Demo.episode.1 in
  Demo.episode.1 = pre ++ EnvStep Demo.action0 (Demo.result false) :: post ∧
  length (env_results pre) = 0 ∧
  ∃ pre' post',
    pre = pre' ++ [Print (MsgAction (length (env_results pre)) Demo.action0)] ∧
    post = Print (MsgReward (length (env_results pre)) 0 false) :: post'.
Proof.
  intros pre post.
  assert (Demo.episode.1 = pre ++ EnvStep Demo.action0 (Demo.result false) :: post)
    as H by (vm_compute; reflexivity).
  split; [exact H|]. split; [vm_compute; reflexivity|].
  destruct (console_lines_follow_step_counter
    (convert_7_to_6_model Demo.rot) (convert_6_to_7_model Demo.quat) Demo.select
    (Demo.env_step Demo.three 2) ∅ 5 (Demo.obs Demo.three Demo.pose0) 0 tt)
    as (_ & _ & T).
  destruct (T pre Demo.action0 (Demo.result false) post H) as (pre' & post' & H1 & H2).
  exists pre', post'. split; [exact H1|exact H2].
Defined.

(** Column 6, the first one that is left alone. *)
Lemma scale_action_columnwise_witness : 6 ≤ 6 ∧ scale_at 6 1 = 1%Q.
Proof.
  assert (6 ≤ 6) as H by lia. split; [exact H|].
  exact (proj2 (proj2 (proj2 (proj2 (scale_action_columnwise [])))) 6 1%Q H).
Defined.

(** An RGB frame with entries between 0 and 255 is written as it is. *)
Lemma frame_of_batch_element_0_witness :
  Forall (Forall (λ px, length px ≤ 3 ∧ Forall pixel_range px)) Demo.frame0 ∧
  frame_of [Demo.frame0] = Some Demo.frame0.
Proof.
  assert (Forall (Forall (λ px, length px ≤ 3 ∧ Forall pixel_range px)) Demo.frame0)
    as H.
  { repeat constructor; unfold pixel_range; simpl; lia. }
  split; [exact H|].
  exact (proj2 (proj2 frame_of_batch_element_0) Demo.frame0 [] H).
Defined.

(** The alpha plane of the prepared picture has the picture's two rows. *)
Lemma prepare_image_shape_witness :
  3 < channels (nth 0 Demo.picture []) ∧
  length (nth 3 (nth 0 (t_data (prepare_image Demo.picture)) []) [])
  = length (nth 0 Demo.picture []).
Proof.
  assert (3 < channels (nth 0 Demo.picture [])) as H by (vm_compute; lia).
  split; [exact H|].
  exact (proj1 (proj2 (proj2 (prepare_image_shape Demo.picture))) 0 3 H).
Defined.
